(** * ticker-tweets: the mention detection of [app.py]

    A shallow embedding of [SMTPStockEmailOutlet] from [src/app.py]: the
    catalog loading ([_load_data], [_get_symbols], [_get_stock_proper_name])
    and the three matching passes of [_analyze_tweet].

    Python strings are modelled as [string] (a sequence of bytes, the UTF-8
    encoding of the text): every character the code looks at (the ASCII
    punctuation and the space) is one byte below 128, and no byte of a
    multi-byte UTF-8 sequence is below 128, so deleting and splitting on
    bytes is deleting and splitting on characters.  Python floats are the
    kernel's binary64 [float]. *)

From Stdlib Require Import String Ascii List Bool Arith Lia Permutation.
From Stdlib Require Import QArith.
From Stdlib Require Import Floats.PrimFloat.
Import ListNotations.

Local Close Scope Q_scope.
Local Open Scope string_scope.
Local Open Scope list_scope.

(** ** Python strings *)

Module PyStr.

(** [c in s] for a one-character [c]. *)
Fixpoint contains (s : string) (c : ascii) : bool :=
  match s with
  | EmptyString => false
  | String d r => Ascii.eqb c d || contains r c
  end.

(** [s.translate(str.maketrans("", "", deletechars))]: the characters of
    [deletechars] are dropped, every other character is kept in place. *)
Fixpoint translate_delete (deletechars s : string) : string :=
  match s with
  | EmptyString => EmptyString
  | String c r =>
      if contains deletechars c
      then translate_delete deletechars r
      else String c (translate_delete deletechars r)
  end.

(** [s.split(" ")]: split at every single space.  Unlike [s.split()], it
    never returns the empty list: the empty string splits into one empty
    string, and two spaces in a row give an empty piece. *)
Fixpoint split_space (s : string) : list string :=
  match s with
  | EmptyString => [EmptyString]
  | String c r =>
      if Ascii.eqb c " "%char
      then EmptyString :: split_space r
      else match split_space r with
           | piece :: pieces => String c piece :: pieces
           | [] => [String c EmptyString]
           end
  end.

(** ["".join(parts)]. *)
Definition join_empty (parts : list string) : string :=
  fold_right String.append EmptyString parts.

(** [word in words] for a collection of strings. *)
Definition mem (word : string) (words : list string) : bool :=
  existsb (String.eqb word) words.

(** [needle in hay]. *)
Fixpoint is_substring (needle hay : string) : bool :=
  String.prefix needle hay ||
  match hay with
  | EmptyString => false
  | String _ rest => is_substring needle rest
  end.

(** The characters of [s] that a property is stated over. *)
Fixpoint chars (s : string) : list ascii :=
  match s with
  | EmptyString => []
  | String c r => c :: chars r
  end.

End PyStr.

(** ** Module constants (lines 21-22) *)

(** [string.punctuation] of the Python standard library: 32 characters, the
    ASCII symbols from the exclamation mark to the tilde that are neither
    letters nor digits.  The double quote, its second one, is character 34. *)
Definition string_punctuation : string :=
  String "!" (String "034" "#$%&'()*+,-./:;<=>?@[\]^_`{|}~").

(** [PUNCTUATION] of line 21: the same characters without the hyphen. *)
Definition PUNCTUATION : string :=
  String "!" (String "034" "#$%&'()*+,./:;<=>?@[\]^_`{|}~").

#[warnings="-inexact-float"]
Definition SIMILARITY_THRESHOLD : float := 0.80%float.

(** [similarity >= SIMILARITY_THRESHOLD] on binary64 floats (false on NaN). *)
Definition above_threshold (similarity : float) : bool :=
  PrimFloat.leb SIMILARITY_THRESHOLD similarity.

(** ** The objects the outlet holds *)

(** One record of [self.stock_data], a dict read only at the keys [Symbol]
    and [Name].  Detection is stated over records whose two fields are
    strings; what the loader does with anything else is in [Loader]. *)
Record Stock : Type := { Symbol : string; Name : string }.

(** The spaCy pipeline [self.nlp], as far as [_analyze_tweet] uses it.
    - [stop_words] is [nlp.Defaults.stop_words], a set of strings that is only
      asked for membership;
    - [tokens text] are the [token.text] of [nlp(text)] in document order;
    - [noun_chunks text] are the [chunk.text] of [nlp(text).noun_chunks];
    - [similarity a b] is [a.similarity(b)], the cosine of the averaged word
      vectors of two texts, whether [a] is a [Doc], a [Token] or a [Span]. *)
Record Language : Type := {
  stop_words : list string;
  tokens : string -> list string;
  noun_chunks : string -> list string;
  similarity : string -> string -> float
}.

(** The part of [self] that [_analyze_tweet] reads.  [symbols] and
    [proper_stock_names] are Python sets: the list gives the order in which
    the set object iterates, which stays the same as long as the set is not
    changed (and [_analyze_tweet] never changes it). *)
Record SMTPStockEmailOutlet : Type := {
  stock_data : list Stock;
  symbols : list string;
  proper_stock_names : list string;
  nlp : Language
}.

(** A value stored in a mention dict. *)
Inductive pyval : Type :=
| PyString (s : string)
| PyFloat (x : float).

(** A mention is a Python dict literal: its keys in insertion order. *)
Definition Mention : Type := list (string * pyval).

(** [d.get(key)]. *)
Fixpoint dict_get (d : Mention) (key : string) : option pyval :=
  match d with
  | [] => None
  | (k, v) :: rest => if String.eqb k key then Some v else dict_get rest key
  end.

Definition dict_keys (d : Mention) : list string := map fst d.

(** ** [_analyze_tweet] (lines 114-181) *)

(** A [for x in xs: body] loop over a list that [body] does not change,
    threading the variables the body assigns. *)
Definition for_each {A S : Type} (xs : list A) (body : A -> S -> S) (s : S) : S :=
  fold_left (fun s x => body x s) xs s.

(** Line 115. *)
Definition strip_punctuation (tweet : string) : string :=
  PyStr.translate_delete string_punctuation tweet.

(** Lines 116-119, on the stripped text. *)
Definition tweet_tokens (lang : Language) (tweet : string) : list string :=
  let stopwords := stop_words lang in
  let tweet_tokens := PyStr.split_space tweet in
  filter (fun word => negb (PyStr.mem word stopwords)) tweet_tokens.

(** Lines 131-137: the names of all records with this symbol, joined. *)
Definition proper_name_of (stock_data : list Stock) (symbol : string) : string :=
  PyStr.join_empty
    (map Name (filter (fun stock => String.eqb (Symbol stock) symbol) stock_data)).

(** Lines 148-154 and 168-174: the symbols of all records with this name,
    joined. *)
Definition symbol_of (stock_data : list Stock) (proper_name : string) : string :=
  PyStr.join_empty
    (map Symbol (filter (fun stock => String.eqb (Name stock) proper_name) stock_data)).

(** Lines 120-139. *)
Definition pass_symbols (self : SMTPStockEmailOutlet) (tweet_tokens : list string)
    (mentions : list Mention) : list Mention :=
  for_each tweet_tokens (fun token =>
    for_each (symbols self) (fun symbol mentions =>
      let similarity := similarity (nlp self) symbol token in
      if above_threshold similarity then
        mentions ++
          [ [ ("Symbol", PyString symbol);
              ("SymbolToken", PyString token);
              ("Score", PyFloat similarity);
              ("ProperName", PyString (proper_name_of (stock_data self) symbol)) ] ]
      else mentions)) mentions.

(** Lines 141-159. *)
Definition pass_names (self : SMTPStockEmailOutlet) (doc : string)
    (mentions : list Mention) : list Mention :=
  for_each (tokens (nlp self) doc) (fun token =>
    for_each (proper_stock_names self) (fun proper_name mentions =>
      let similarity := similarity (nlp self) token proper_name in
      if above_threshold similarity then
        mentions ++
          [ [ ("Symbol", PyString (symbol_of (stock_data self) proper_name));
              ("ProperName", PyString proper_name);
              ("NameToken", PyString token);
              ("Score", PyFloat similarity) ] ]
      else mentions)) mentions.

(** Lines 160-179. *)
Definition pass_chunks (self : SMTPStockEmailOutlet) (doc : string)
    (mentions : list Mention) : list Mention :=
  for_each (noun_chunks (nlp self) doc) (fun chunk mentions =>
    if (1 <? List.length (PyStr.split_space chunk))%nat then
      for_each (proper_stock_names self) (fun proper_name mentions =>
        let similarity := similarity (nlp self) chunk proper_name in
        if above_threshold similarity then
          mentions ++
            [ [ ("Symbol", PyString (symbol_of (stock_data self) proper_name));
                ("ProperName", PyString proper_name);
                ("WordChunk", PyString chunk);
                ("Score", PyFloat similarity) ] ]
        else mentions) mentions
    else mentions) mentions.

Definition _analyze_tweet (self : SMTPStockEmailOutlet) (tweet : string) : list Mention :=
  let tweet := strip_punctuation tweet in
  let mentions := [] in
  let mentions := pass_symbols self (tweet_tokens (nlp self) tweet) mentions in
  let doc := tweet in
  let mentions := pass_names self doc mentions in
  let mentions := pass_chunks self doc mentions in
  mentions.

(** ** What the spec calls the strategy of a mention

    The dicts carry no strategy entry: the pass that built a mention shows
    in the key under which the matched text is stored. *)

Inductive strategy : Type := TOKEN_VS_SYMBOL | TOKEN_VS_NAME | PHRASE_VS_NAME.

Definition text_key (st : strategy) : string :=
  match st with
  | TOKEN_VS_SYMBOL => "SymbolToken"
  | TOKEN_VS_NAME => "NameToken"
  | PHRASE_VS_NAME => "WordChunk"
  end.

Definition has_key (m : Mention) (key : string) : bool :=
  PyStr.mem key (dict_keys m).

Definition strategy_of (m : Mention) : option strategy :=
  if has_key m "SymbolToken" then Some TOKEN_VS_SYMBOL
  else if has_key m "NameToken" then Some TOKEN_VS_NAME
  else if has_key m "WordChunk" then Some PHRASE_VS_NAME
  else None.

Definition matched_text (m : Mention) : option string :=
  match strategy_of m with
  | Some st =>
      match dict_get m (text_key st) with
      | Some (PyString text) => Some text
      | _ => None
      end
  | None => None
  end.

(** The names the spec gives to the values of its strategy field. *)
Definition strategy_names : list string :=
  ["TOKEN_VS_SYMBOL"; "TOKEN_VS_NAME"; "PHRASE_VS_NAME"].

(** A mention as the spec describes it: five entries, one of which holds a
    strategy name. *)
Definition has_strategy_field (m : Mention) : Prop :=
  exists key name,
    dict_get m key = Some (PyString name) /\ In name strategy_names.

Definition has_five_fields (m : Mention) : Prop :=
  List.length (dict_keys m) = 5 /\ has_strategy_field m.

(** ** The mentions of each pass, as lists *)

Definition symbol_mention (self : SMTPStockEmailOutlet) (token symbol : string) : Mention :=
  [ ("Symbol", PyString symbol);
    ("SymbolToken", PyString token);
    ("Score", PyFloat (similarity (nlp self) symbol token));
    ("ProperName", PyString (proper_name_of (stock_data self) symbol)) ].

Definition name_mention (self : SMTPStockEmailOutlet) (key text proper_name : string) : Mention :=
  [ ("Symbol", PyString (symbol_of (stock_data self) proper_name));
    ("ProperName", PyString proper_name);
    (key, PyString text);
    ("Score", PyFloat (similarity (nlp self) text proper_name)) ].

Definition symbol_hits (self : SMTPStockEmailOutlet) (token : string) : list Mention :=
  flat_map (fun symbol =>
    if above_threshold (similarity (nlp self) symbol token)
    then [symbol_mention self token symbol] else []) (symbols self).

Definition name_hits (self : SMTPStockEmailOutlet) (key text : string) : list Mention :=
  flat_map (fun proper_name =>
    if above_threshold (similarity (nlp self) text proper_name)
    then [name_mention self key text proper_name] else []) (proper_stock_names self).

Definition chunk_hits (self : SMTPStockEmailOutlet) (chunk : string) : list Mention :=
  if (1 <? List.length (PyStr.split_space chunk))%nat
  then name_hits self "WordChunk" chunk else [].


(** ** Loading the catalog (lines 86-88 and 183-198)

    [json.load] returns arbitrary Python objects and the three functions
    below use them without a check, so they are modelled over every JSON
    value, with the exceptions Python raises. *)

Module Loader.

(** What [json.load] can return.  A finite number is given by its exact
    value (Python compares and hashes an [int] and a [float] by value); the
    members of an object have distinct keys, as in the dict built from it. *)
#[warnings="-register-all"]
Inductive json : Type :=
| JNull
| JBool (b : bool)
| JNumber (q : Q)
| JString (s : string)
| JArray (items : list json)
| JObject (members : list (string * json)).

(** The exceptions of the loading path: [open] failing (a missing file
    raises [FileNotFoundError], an [OSError]), [json.load] failing, a
    missing key, and an operation the type of a value does not have. *)
Inductive exn : Type :=
| OSError
| JSONDecodeError
| KeyError (key : string)
| TypeError.

(** A computation that returns ([inr]) or raises ([inl]). *)
Definition result (A : Type) : Type := (exn + A)%type.

Definition ret {A : Type} (a : A) : result A := inr a.
Definition raise {A : Type} (e : exn) : result A := inl e.

Definition bind {A B : Type} (c : result A) (k : A -> result B) : result B :=
  match c with
  | inl e => inl e
  | inr a => k a
  end.

Notation "x <- c ;; k" := (bind c (fun x => k))
  (at level 61, c at next level, right associativity).

(** A [for] loop whose body can raise: the first exception ends it. *)
Fixpoint for_each_m {A S : Type} (xs : list A) (body : A -> S -> result S)
    (s : S) : result S :=
  match xs with
  | [] => ret s
  | x :: rest => s' <- body x s ;; for_each_m rest body s'
  end.

Fixpoint lookup (key : string) (members : list (string * json)) : option json :=
  match members with
  | [] => None
  | (k, v) :: rest => if String.eqb k key then Some v else lookup key rest
  end.

(** [entry[key]] for a string [key]: only a dict can be indexed by one. *)
Definition getitem (entry : json) (key : string) : result json :=
  match entry with
  | JObject members =>
      match lookup key members with
      | Some v => ret v
      | None => raise (KeyError key)
      end
  | _ => raise TypeError
  end.

(** What [for entry in value] goes through: the items of a list, the keys
    of a dict, the characters of a string (one string each; they are given
    here per byte, which changes nothing a string entry is used for);
    nothing else can be iterated. *)
Definition py_iter (value : json) : result (list json) :=
  match value with
  | JArray items => ret items
  | JObject members => ret (map (fun member => JString (fst member)) members)
  | JString s => ret (map (fun c => JString (String c EmptyString)) (PyStr.chars s))
  | _ => raise TypeError
  end.

(** Lists and dicts cannot be put in a set. *)
Definition hashable (v : json) : bool :=
  match v with
  | JArray _ | JObject _ => false
  | _ => true
  end.

(** [a == b] on hashable values ([True == 1] and [False == 0] in Python). *)
Definition py_eq (a b : json) : bool :=
  match a, b with
  | JNull, JNull => true
  | JBool x, JBool y => Bool.eqb x y
  | JBool x, JNumber q | JNumber q, JBool x =>
      Qeq_bool q (if x then 1%Q else 0%Q)
  | JNumber p, JNumber q => Qeq_bool p q
  | JString s, JString t => String.eqb s t
  | _, _ => false
  end.

(** The catalog part of the outlet, as [__init__] stores it. *)
Record Catalog : Type := {
  stock_data : json;
  symbols : list json;
  proper_stock_names : list json
}.

Section Environment.

(** [open(filename, "r")] and reading the file: its text, or nothing when
    the file cannot be opened. *)
Variable read_file : string -> option string.

(** [json.load] on the text of a file: nothing when it is not JSON. *)
Variable json_loads : string -> option json.

(** Where a set puts a new element among those it iterates over.  It
    depends on the hashes, which change from one process to the next. *)
Variable set_place : json -> list json -> list json.

(** [s.add(v)], on the iteration order of [s]. *)
Definition set_add (v : json) (s : list json) : result (list json) :=
  if hashable v
  then ret (if existsb (py_eq v) s then s else set_place v s)
  else raise TypeError.

(** Lines 195-198. *)
Definition _load_data (filename : string) : result json :=
  match read_file filename with
  | None => raise OSError
  | Some text =>
      match json_loads text with
      | None => raise JSONDecodeError
      | Some stock_data => ret stock_data
      end
  end.

(** Lines 183-187. *)
Definition _get_symbols (stock_data : json) : result (list json) :=
  let symbols := [] in
  entries <- py_iter stock_data ;;
  for_each_m entries (fun entry symbols =>
    symbol <- getitem entry "Symbol" ;;
    set_add symbol symbols) symbols.

(** Lines 189-193. *)
Definition _get_stock_proper_name (stock_data : json) : result (list json) :=
  let proper_names := [] in
  entries <- py_iter stock_data ;;
  for_each_m entries (fun entry proper_names =>
    name <- getitem entry "Name" ;;
    set_add name proper_names) proper_names.

(** Lines 86-88 of [__init__]. *)
Definition init_catalog (stock_datapath : string) : result Catalog :=
  stock_data <- _load_data stock_datapath ;;
  symbols <- _get_symbols stock_data ;;
  proper_stock_names <- _get_stock_proper_name stock_data ;;
  ret {| stock_data := stock_data;
         symbols := symbols;
         proper_stock_names := proper_stock_names |}.

(** [entry] is a dict with the key [key]. *)
Definition has_field (entry : json) (key : string) : bool :=
  match entry with
  | JObject members =>
      match lookup key members with Some _ => true | None => false end
  | _ => false
  end.

(** A record with both fields the catalog reads. *)
Definition complete_record (entry : json) : bool :=
  has_field entry "Symbol" && has_field entry "Name".

(** A field that is there and whose value can be a member of a set. *)
Definition usable_field (entry : json) (key : string) : bool :=
  match getitem entry key with
  | inr v => hashable v
  | inl _ => false
  end.

(** A field whose value cannot be a member of a set. *)
Definition unhashable_field (entry : json) (key : string) : bool :=
  match getitem entry key with
  | inr v => negb (hashable v)
  | inl _ => false
  end.

(** A source that is missing or malformed: there is no file, its text is
    not JSON, the value is not a collection, or one of the entries of the
    collection is not a record with the fields [Symbol] and [Name] (or has
    a list or a dict in one of them). *)
Inductive bad_source (path : string) : Prop :=
| source_missing :
    read_file path = None -> bad_source path
| source_not_json text :
    read_file path = Some text -> json_loads text = None -> bad_source path
| source_not_a_collection text value :
    read_file path = Some text ->
    json_loads text = Some value ->
    py_iter value = inl TypeError ->
    bad_source path
| source_incomplete_record text value entries entry :
    read_file path = Some text ->
    json_loads text = Some value ->
    py_iter value = inr entries ->
    In entry entries ->
    complete_record entry = false ->
    bad_source path
| source_unhashable_field text value entries entry key :
    read_file path = Some text ->
    json_loads text = Some value ->
    py_iter value = inr entries ->
    In entry entries ->
    key = "Symbol" \/ key = "Name" ->
    unhashable_field entry key = true ->
    bad_source path.

End Environment.

(** The typed view of a record whose two fields are strings. *)
Definition stock_of (entry : json) : option Stock :=
  match getitem entry "Symbol", getitem entry "Name" with
  | inr (JString symbol), inr (JString name) =>
      Some {| Symbol := symbol; Name := name |}
  | _, _ => None
  end.

End Loader.

(** ** A loaded catalog as [_analyze_tweet] reads it *)

(** The record of the source file for an instrument. *)
Definition json_of_stock (stock : Stock) : Loader.json :=
  Loader.JObject [ ("Symbol", Loader.JString (Symbol stock));
                   ("Name", Loader.JString (Name stock)) ].

Definition string_of (v : Loader.json) : option string :=
  match v with
  | Loader.JString s => Some s
  | _ => None
  end.

(** The elements of a list when all of them are there. *)
Fixpoint all_of {A : Type} (xs : list (option A)) : option (list A) :=
  match xs with
  | [] => Some []
  | None :: _ => None
  | Some x :: rest =>
      match all_of rest with
      | Some found => Some (x :: found)
      | None => None
      end
  end.

(** The outlet over a loaded catalog whose source is a list of records with
    string fields (for any other catalog the passes of [_analyze_tweet] are
    not modelled). *)
Definition outlet_of (catalog : Loader.Catalog) (lang : Language)
  : option SMTPStockEmailOutlet :=
  match Loader.stock_data catalog with
  | Loader.JArray records =>
      match all_of (map Loader.stock_of records),
            all_of (map string_of (Loader.symbols catalog)),
            all_of (map string_of (Loader.proper_stock_names catalog)) with
      | Some stocks, Some symbols, Some names =>
          Some {| stock_data := stocks;
                  symbols := symbols;
                  proper_stock_names := names;
                  nlp := lang |}
      | _, _, _ => None
      end
  | _ => None
  end.

(** ** Notions the statements below use *)

(** The symbols of the records that bear [proper_name], written one after
    the other in catalog order. *)
Fixpoint symbols_bearing (proper_name : string) (catalog : list Stock) : string :=
  match catalog with
  | [] => EmptyString
  | stock :: rest =>
      if String.eqb (Name stock) proper_name
      then Symbol stock ++ symbols_bearing proper_name rest
      else symbols_bearing proper_name rest
  end.

(** The names of the records that carry [symbol], written one after the
    other in catalog order. *)
Fixpoint names_carrying (symbol : string) (catalog : list Stock) : string :=
  match catalog with
  | [] => EmptyString
  | stock :: rest =>
      if String.eqb (Symbol stock) symbol
      then Name stock ++ names_carrying symbol rest
      else names_carrying symbol rest
  end.

(** Two outlets hold the same catalog: the same records, and sets that
    iterate in the same order. *)
Definition same_catalog (a b : SMTPStockEmailOutlet) : Prop :=
  stock_data a = stock_data b /\
  symbols a = symbols b /\
  proper_stock_names a = proper_stock_names b.

(** Two pipelines answer alike: the same stopwords, and on every input the
    same tokens, noun chunks and similarity. *)
Definition same_answers (a b : Language) : Prop :=
  (forall word, PyStr.mem word (stop_words a) = PyStr.mem word (stop_words b)) /\
  (forall text, tokens a text = tokens b text) /\
  (forall text, noun_chunks a text = noun_chunks b text) /\
  (forall x y, similarity a x y = similarity b x y).

(** The pipeline cuts [doc] into pieces of its text: every token and every
    noun chunk it finds in [doc] occurs in [doc]. *)
Definition cuts_text (lang : Language) (doc : string) : bool :=
  forallb (fun t => PyStr.is_substring t doc) (tokens lang doc) &&
  forallb (fun c => PyStr.is_substring c doc) (noun_chunks lang doc).

(** ** Concrete catalogs and pipelines

    Small instances on which the definitions above are run. *)

Module Examples.

(** An oracle that gives 1.0 to identical texts and 0.0 to all others. *)
Definition exact_match (a b : string) : float :=
  if String.eqb a b then 1%float else 0%float.

(** The non-empty pieces between spaces. *)
Definition words (text : string) : list string :=
  filter (fun w => negb (String.eqb w EmptyString)) (PyStr.split_space text).

(** A pipeline without noun chunks. *)
Definition plain_language : Language :=
  {| stop_words := ["is"; "up"; "and"; "the"];
     tokens := words;
     noun_chunks := fun _ => [];
     similarity := exact_match |}.

(** A pipeline that takes the whole text as one noun chunk. *)
Definition chunking_language : Language :=
  {| stop_words := ["is"; "up"; "and"; "the"];
     tokens := words;
     noun_chunks := fun text => [text];
     similarity := exact_match |}.

(** An oracle for which everything is alike. *)
Definition credulous_language : Language :=
  {| stop_words := ["is"; "up"; "and"; "the"];
     tokens := words;
     noun_chunks := fun _ => [];
     similarity := fun _ _ => 1%float |}.

Definition aapl : Stock := {| Symbol := "AAPL"; Name := "Apple Inc" |}.

(** The outlet over the catalog with the single instrument [aapl]. *)
Definition aapl_outlet (lang : Language) : SMTPStockEmailOutlet :=
  {| stock_data := [aapl];
     symbols := ["AAPL"];
     proper_stock_names := ["Apple Inc"];
     nlp := lang |}.

Definition aapl_mention : Mention :=
  [ ("Symbol", PyString "AAPL");
    ("SymbolToken", PyString "AAPL");
    ("Score", PyFloat 1%float);
    ("ProperName", PyString "Apple Inc") ].

(** Two records with distinct symbols that bear the same name. *)
Definition same_name_stocks : list Stock :=
  [ {| Symbol := "AAPL"; Name := "Apple Inc" |};
    {| Symbol := "GOOG"; Name := "Apple Inc" |} ].

Definition same_name_outlet (lang : Language) : SMTPStockEmailOutlet :=
  {| stock_data := same_name_stocks;
     symbols := ["AAPL"; "GOOG"];
     proper_stock_names := ["Apple Inc"];
     nlp := lang |}.

Definition same_name_mention : Mention :=
  [ ("Symbol", PyString "AAPLGOOG");
    ("ProperName", PyString "Apple Inc");
    ("WordChunk", PyString "Apple Inc");
    ("Score", PyFloat 1%float) ].

(** The same outlet with its symbol set iterating the other way round. *)
Definition same_name_outlet_rev (lang : Language) : SMTPStockEmailOutlet :=
  {| stock_data := same_name_stocks;
     symbols := ["GOOG"; "AAPL"];
     proper_stock_names := ["Apple Inc"];
     nlp := lang |}.

End Examples.

(** ** Concrete sources *)

Module Sources.
Import Loader.

Definition datapath : string := "data/s&p-500.json".

(** A file system with one file at [datapath]. *)
Definition one_file (text : string) (filename : string) : option string :=
  if String.eqb filename datapath then Some text else None.

(** A parser that knows three texts. *)
Definition parser (text : string) : option json :=
  if String.eqb text "aapl" then
    Some (JArray [json_of_stock Examples.aapl])
  else if String.eqb text "nameless" then
    Some (JArray [ json_of_stock Examples.aapl;
                   JObject [("Symbol", JString "GOOG")] ])
  else if String.eqb text "empty object" then
    Some (JObject [])
  else None.

(** A set that iterates in the order of insertion. *)
Definition place_last (v : json) (s : list json) : list json := s ++ [v].

End Sources.

(** ** The Twitter inlet (lines 25-70) *)

From Stdlib Require Import Sorted.

Module Twitter.

(** A status of a timeline, with the attributes [pull] reads: [tweet.id],
    [tweet.user.screen_name] and [tweet.text]. *)
Record Status : Type := { id : Z; screen_name : string; text : string }.

(** A call of the tweepy client.  [since_id] is [None] when the keyword is
    not passed. *)
Inductive request : Type :=
| user_timeline (user : option string) (since_id : option Z)
| home_timeline (since_id : option Z).

(** What [self.api] answers at the time of one call: the statuses, or
    nothing when the call raises. *)
Definition API : Type := request -> option (list Status).

(** The attributes of the inlet that [pull] reads and writes. *)
Record TwitterInlet : Type := {
  user : option string;
  most_recent_id : option Z;
  is_user_timeline : bool
}.

(** Lines 32-47. *)
Definition init (user : option string) (most_recent_id : option Z) : TwitterInlet :=
  {| user := user;
     most_recent_id := most_recent_id;
     is_user_timeline := match user with None => false | Some _ => true end |}.

(** One record that [pull] hands on: a dict with the keys [user] and
    [text]. *)
Definition record_of (tweet : Status) : list (string * string) :=
  [ ("user", screen_name tweet); ("text", text tweet) ].

(** Lines 49-70: the records pulled and the inlet afterwards, or nothing
    when the call of the client raises (the inlet is then as it was). *)
Definition pull (api : API) (self : TwitterInlet)
  : option (list (list (string * string)) * TwitterInlet) :=
  let answer :=
    if is_user_timeline self then
      match most_recent_id self with
      | Some since => api (user_timeline (user self) (Some since))
      | None => api (user_timeline (user self) None)
      end
    else
      match most_recent_id self with
      | Some since => api (home_timeline (Some since))
      | None => api (home_timeline None)
      end in
  match answer with
  | None => None
  | Some public_tweets =>
      let self :=
        match public_tweets with
        | newest :: _ =>
            {| user := user self;
               most_recent_id := Some (id newest);
               is_user_timeline := is_user_timeline self |}
        | [] => self
        end in
      Some (map record_of public_tweets, self)
  end.

(** *** Successive pulls *)

(** The call that the next [pull] makes. *)
Definition request_of (self : TwitterInlet) : request :=
  if is_user_timeline self
  then user_timeline (user self) (most_recent_id self)
  else home_timeline (most_recent_id self).

Definition since_id_of (r : request) : option Z :=
  match r with
  | user_timeline _ since => since
  | home_timeline since => since
  end.

(** The inlet after one [pull]. *)
Definition after (api : API) (self : TwitterInlet) : TwitterInlet :=
  match pull api self with
  | Some (_, self') => self'
  | None => self
  end.

(** The inlet after a pull at each of the moments [apis], in turn. *)
Definition after_all (apis : list API) (self : TwitterInlet) : TwitterInlet :=
  fold_left (fun self api => after api self) apis self.

(** The calls these pulls make, and the statuses they are answered with (none
    for a call that raised). *)
Fixpoint calls (apis : list API) (self : TwitterInlet) : list request :=
  match apis with
  | [] => []
  | api :: rest => request_of self :: calls rest (after api self)
  end.

Fixpoint answers (apis : list API) (self : TwitterInlet) : list Status :=
  match apis with
  | [] => []
  | api :: rest =>
      match api (request_of self) with
      | Some statuses => statuses ++ answers rest (after api self)
      | None => answers rest (after api self)
      end
  end.

(** The records these pulls hand on. *)
Fixpoint pulled (apis : list API) (self : TwitterInlet) : list (list (string * string)) :=
  match apis with
  | [] => []
  | api :: rest =>
      match pull api self with
      | Some (tweets, self') => tweets ++ pulled rest self'
      | None => pulled rest self
      end
  end.

(** A client that answers newest first and, asked with [since_id], only with
    statuses after it. *)
Definition honours_since_id (api : API) : Prop :=
  forall r statuses,
    api r = Some statuses ->
    StronglySorted (fun a b => (id b < id a)%Z) statuses /\
    forall since, since_id_of r = Some since ->
      Forall (fun status => (since < id status)%Z) statuses.

(** The inlet has kept up with the statuses [seen]: none of them came
    twice, none is newer than the cursor, and the cursor is the id of one of
    them when there is any. *)
Definition up_to_date (seen : list Status) (self : TwitterInlet) : Prop :=
  NoDup (map id seen) /\
  (forall status, In status seen ->
     exists newest, most_recent_id self = Some newest /\ (id status <= newest)%Z) /\
  (seen <> [] ->
     exists status, In status seen /\ most_recent_id self = Some (id status)).

End Twitter.

(** ** Further notions for the statements *)

(** The two sets of the outlet hold nothing but fields of its records. *)
Definition sets_from_records (self : SMTPStockEmailOutlet) : Prop :=
  incl (symbols self) (map Symbol (stock_data self)) /\
  incl (proper_stock_names self) (map Name (stock_data self)).

(** The exception that reading the field [key] of [entry] into a set
    raises, if any. *)
Definition field_error (key : string) (entry : Loader.json) : option Loader.exn :=
  match Loader.getitem entry key with
  | inl e => Some e
  | inr v => if Loader.hashable v then None else Some Loader.TypeError
  end.

(** The first exception among the entries, in their order. *)
Fixpoint first_error (key : string) (entries : list Loader.json) : option Loader.exn :=
  match entries with
  | [] => None
  | entry :: rest =>
      match field_error key entry with
      | Some e => Some e
      | None => first_error key rest
      end
  end.

(** A feed for the examples: two statuses, then a third one on top. *)
Module Feed.
Import Twitter.

Definition early : list Status :=
  [ {| id := 12; screen_name := "cdpierse"; text := "AAPL is up today" |};
    {| id := 11; screen_name := "cdpierse"; text := "nothing relevant" |} ].

Definition late : list Status :=
  {| id := 15; screen_name := "cdpierse"; text := "Apple and Gartner" |} :: early.

(** A client over the statuses [feed], newest first. *)
Definition client (feed : list Status) : API :=
  fun r =>
    match since_id_of r with
    | Some since => Some (filter (fun status => (since <? id status)%Z) feed)
    | None => Some feed
    end.

(** A client whose calls raise. *)
Definition down : API := fun _ => None.

End Feed.

(** ** Sources as the spec describes them *)


(** Sources with two instruments, a record whose symbol is [null], a record
    with a third member and the name first, and a string instead of a
    list. *)
Module MoreSources.
Import Loader.

Definition goog : Stock := {| Symbol := "GOOG"; Name := "Google LLC" |}.

Definition two_records : json :=
  JArray [json_of_stock Examples.aapl; json_of_stock goog].

Definition null_symbol : json :=
  JArray [ JObject [("Symbol", JNull); ("Name", JString "Apple Inc")] ].

Definition with_sector : json :=
  JArray [ JObject [ ("Name", JString "Apple Inc");
                     ("Sector", JString "Information Technology");
                     ("Symbol", JString "AAPL") ] ].

Definition parser (text : string) : option json :=
  if String.eqb text "two records" then Some two_records
  else if String.eqb text "null symbol" then Some null_symbol
  else if String.eqb text "with sector" then Some with_sector
  else if String.eqb text "a string" then Some (JString EmptyString)
  else None.

(** A set that iterates newest first. *)
Definition place_first (v : json) (s : list json) : list json := v :: s.

End MoreSources.
(** ** Loops that only append *)

Section ForEach.
Context {A M : Type}.

Lemma for_each_nil (body : A -> list M -> list M) (acc : list M) :
  for_each [] body acc = acc.
Proof. reflexivity. Qed.

Lemma for_each_cons (body : A -> list M -> list M) x xs (acc : list M) :
  for_each (x :: xs) body acc = for_each xs body (body x acc).
Proof. reflexivity. Qed.

(** A loop whose body appends [emit x] to the accumulator appends the
    emissions of all elements, in iteration order. *)
Lemma for_each_emits (emit : A -> list M) (body : A -> list M -> list M) :
  (forall x acc, body x acc = acc ++ emit x) ->
  forall xs acc, for_each xs body acc = acc ++ flat_map emit xs.
Proof.
  intros Hbody xs.
  induction xs as [|x xs IH]; intros acc.
  - rewrite for_each_nil. simpl. now rewrite app_nil_r.
  - rewrite for_each_cons, IH, Hbody. simpl. now rewrite app_assoc.
Qed.
End ForEach.

Lemma pass_symbols_emits self toks acc :
  pass_symbols self toks acc = acc ++ flat_map (symbol_hits self) toks.
Proof.
  unfold pass_symbols.
  apply for_each_emits. intros token acc'.
  unfold symbol_hits.
  apply for_each_emits. intros symbol acc''.
  unfold symbol_mention.
  destruct (above_threshold _); [reflexivity | now rewrite app_nil_r].
Qed.

Lemma pass_names_emits self doc acc :
  pass_names self doc acc =
  acc ++ flat_map (name_hits self "NameToken") (tokens (nlp self) doc).
Proof.
  unfold pass_names.
  apply for_each_emits. intros token acc'.
  unfold name_hits.
  apply for_each_emits. intros proper_name acc''.
  unfold name_mention.
  destruct (above_threshold _); [reflexivity | now rewrite app_nil_r].
Qed.

Lemma pass_chunks_emits self doc acc :
  pass_chunks self doc acc =
  acc ++ flat_map (chunk_hits self) (noun_chunks (nlp self) doc).
Proof.
  unfold pass_chunks.
  apply for_each_emits. intros chunk acc'.
  unfold chunk_hits.
  destruct (1 <? _)%nat; [| now rewrite app_nil_r].
  unfold name_hits.
  apply for_each_emits. intros proper_name acc''.
  unfold name_mention.
  destruct (above_threshold _); [reflexivity | now rewrite app_nil_r].
Qed.

(** The result of [_analyze_tweet]: the hits of the first pass, then those
    of the second, then those of the third. *)
Lemma analyze_tweet_emits self tweet :
  _analyze_tweet self tweet =
  flat_map (symbol_hits self)
           (tweet_tokens (nlp self) (strip_punctuation tweet))
  ++ flat_map (name_hits self "NameToken")
              (tokens (nlp self) (strip_punctuation tweet))
  ++ flat_map (chunk_hits self)
              (noun_chunks (nlp self) (strip_punctuation tweet)).
Proof.
  unfold _analyze_tweet.
  rewrite pass_chunks_emits, pass_names_emits, pass_symbols_emits.
  simpl. now rewrite app_assoc.
Qed.

(** Where a mention of the result comes from. *)
Inductive origin (self : SMTPStockEmailOutlet) (tweet : string) (m : Mention) : Prop :=
| from_symbols token symbol :
    In token (tweet_tokens (nlp self) (strip_punctuation tweet)) ->
    In symbol (symbols self) ->
    above_threshold (similarity (nlp self) symbol token) = true ->
    m = symbol_mention self token symbol ->
    origin self tweet m
| from_names token proper_name :
    In token (tokens (nlp self) (strip_punctuation tweet)) ->
    In proper_name (proper_stock_names self) ->
    above_threshold (similarity (nlp self) token proper_name) = true ->
    m = name_mention self "NameToken" token proper_name ->
    origin self tweet m
| from_chunks chunk proper_name :
    In chunk (noun_chunks (nlp self) (strip_punctuation tweet)) ->
    (1 < List.length (PyStr.split_space chunk))%nat ->
    In proper_name (proper_stock_names self) ->
    above_threshold (similarity (nlp self) chunk proper_name) = true ->
    m = name_mention self "WordChunk" chunk proper_name ->
    origin self tweet m.

Lemma in_name_hits self key text m :
  In m (name_hits self key text) ->
  exists proper_name,
    In proper_name (proper_stock_names self) /\
    above_threshold (similarity (nlp self) text proper_name) = true /\
    m = name_mention self key text proper_name.
Proof.
  unfold name_hits. rewrite in_flat_map.
  intros (proper_name & Hin & Hm).
  exists proper_name.
  destruct (above_threshold _) eqn:Habove; simpl in Hm; [| contradiction].
  destruct Hm as [<- | []]. auto.
Qed.

Lemma in_symbol_hits self token m :
  In m (symbol_hits self token) ->
  exists symbol,
    In symbol (symbols self) /\
    above_threshold (similarity (nlp self) symbol token) = true /\
    m = symbol_mention self token symbol.
Proof.
  unfold symbol_hits. rewrite in_flat_map.
  intros (symbol & Hin & Hm).
  exists symbol.
  destruct (above_threshold _) eqn:Habove; simpl in Hm; [| contradiction].
  destruct Hm as [<- | []]. auto.
Qed.

Lemma analyze_tweet_origin self tweet m :
  In m (_analyze_tweet self tweet) <-> origin self tweet m.
Proof.
  rewrite analyze_tweet_emits, !in_app_iff, !in_flat_map.
  split.
  - intros [(token & Htok & Hm) | [(token & Htok & Hm) | (chunk & Hch & Hm)]].
    + apply in_symbol_hits in Hm as (symbol & ? & ? & ->).
      eapply from_symbols; eauto.
    + apply in_name_hits in Hm as (name & ? & ? & ->).
      eapply from_names; eauto.
    + unfold chunk_hits in Hm.
      destruct (1 <? _)%nat eqn:Hlen; [| contradiction].
      apply Nat.ltb_lt in Hlen.
      apply in_name_hits in Hm as (name & ? & ? & ->).
      eapply from_chunks; eauto.
  - intros [token symbol Htok Hsym Habove -> | token name Htok Hname Habove ->
           | chunk name Hch Hlen Hname Habove ->].
    + left. exists token. split; [assumption |].
      unfold symbol_hits. rewrite in_flat_map. exists symbol.
      rewrite Habove. simpl. auto.
    + right. left. exists token. split; [assumption |].
      unfold name_hits. rewrite in_flat_map. exists name.
      rewrite Habove. simpl. auto.
    + right. right. exists chunk. split; [assumption |].
      unfold chunk_hits. apply Nat.ltb_lt in Hlen. rewrite Hlen.
      unfold name_hits. rewrite in_flat_map. exists name.
      rewrite Habove. simpl. auto.
Qed.

(** Case analysis on the pass that built a mention of the result. *)
Ltac by_origin H :=
  apply analyze_tweet_origin in H;
  destruct H as [?token ?symbol _ _ ?Habove -> | ?token ?name _ _ ?Habove ->
                | ?chunk ?name _ _ _ ?Habove ->].

(** ** The score of a mention *)

Lemma symbol_mention_score self token symbol :
  dict_get (symbol_mention self token symbol) "Score" =
  Some (PyFloat (similarity (nlp self) symbol token)).
Proof. reflexivity. Qed.

Lemma name_mention_score self key text proper_name :
  key = "NameToken" \/ key = "WordChunk" ->
  dict_get (name_mention self key text proper_name) "Score" =
  Some (PyFloat (similarity (nlp self) text proper_name)).
Proof. intros [-> | ->]; reflexivity. Qed.

(** C1. Every mention that [_analyze_tweet] returns, whichever of the three
    passes appended it, stores under [Score] a float that is at least
    [SIMILARITY_THRESHOLD] (0.80): no mention with a lower score is
    returned. *)
Theorem mention_score_reaches_threshold :
  forall (self : SMTPStockEmailOutlet) (tweet : string) (m : Mention),
    In m (_analyze_tweet self tweet) ->
    exists score : float,
      dict_get m "Score" = Some (PyFloat score) /\
      PrimFloat.leb SIMILARITY_THRESHOLD score = true.
Proof.
  intros self tweet m Hin.
  by_origin Hin.
  - eexists. split; [apply symbol_mention_score | exact Habove].
  - eexists. split; [apply name_mention_score; now left | exact Habove].
  - eexists. split; [apply name_mention_score; now right | exact Habove].
Qed.

Lemma mention_score_reaches_threshold_witness :
  exists score : float,
    dict_get Examples.aapl_mention "Score" = Some (PyFloat score) /\
    PrimFloat.leb SIMILARITY_THRESHOLD score = true.
Proof.
  apply (mention_score_reaches_threshold
           (Examples.aapl_outlet Examples.plain_language)
           "AAPL is up today" Examples.aapl_mention).
  vm_compute. left. reflexivity.
Defined.

(** ** The entries of a mention *)

(** C3, as the spec states it, fails: the mention found for the message
    [AAPL is up today] has four entries and none of them holds a strategy
    name. *)
Lemma mention_without_strategy_field :
  In Examples.aapl_mention
     (_analyze_tweet (Examples.aapl_outlet Examples.plain_language)
                     "AAPL is up today") /\
  dict_keys Examples.aapl_mention = ["Symbol"; "SymbolToken"; "Score"; "ProperName"] /\
  ~ has_strategy_field Examples.aapl_mention /\
  ~ has_five_fields Examples.aapl_mention.
Proof.
  split; [vm_compute; left; reflexivity |].
  split; [reflexivity |].
  split.
  - intros (key & name & Hget & Hname).
    unfold Examples.aapl_mention in Hget. simpl in Hget.
    repeat match type of Hget with
           | (if ?b then _ else _) = _ => destruct b
           end;
      try discriminate Hget;
      injection Hget as <-; simpl in Hname; intuition discriminate.
  - intros [Hlen _]. vm_compute in Hlen. discriminate Hlen.
Qed.

(** C3, amended. The result of [_analyze_tweet] is what its three passes
    append, one pass after the other, and every mention has exactly four
    entries, which are fixed by the pass that appended it.  The first pass
    (token against symbol) writes [Symbol], [SymbolToken], [Score],
    [ProperName], with the token under [SymbolToken]; the second (document
    token against name) writes [Symbol], [ProperName], [NameToken], [Score],
    with the token under [NameToken]; the third (noun chunk against name)
    writes [Symbol], [ProperName], [WordChunk], [Score], with the chunk under
    [WordChunk].  The strategy is read off that key; it is not an entry of
    its own. *)
Theorem mention_has_four_entries :
  forall (self : SMTPStockEmailOutlet) (tweet : string),
    let doc := strip_punctuation tweet in
    let first := pass_symbols self (tweet_tokens (nlp self) doc) [] in
    let second := pass_names self doc [] in
    let third := pass_chunks self doc [] in
    _analyze_tweet self tweet = first ++ second ++ third /\
    (forall m : Mention, In m first ->
       exists token symbol : string,
         In token (tweet_tokens (nlp self) doc) /\
         In symbol (symbols self) /\
         dict_keys m = ["Symbol"; "SymbolToken"; "Score"; "ProperName"] /\
         dict_get m "Symbol" = Some (PyString symbol) /\
         dict_get m "SymbolToken" = Some (PyString token) /\
         dict_get m "Score" = Some (PyFloat (similarity (nlp self) symbol token)) /\
         dict_get m "ProperName" =
           Some (PyString (proper_name_of (stock_data self) symbol)) /\
         strategy_of m = Some TOKEN_VS_SYMBOL /\
         matched_text m = Some token) /\
    (forall m : Mention, In m second ->
       exists token proper_name : string,
         In token (tokens (nlp self) doc) /\
         In proper_name (proper_stock_names self) /\
         dict_keys m = ["Symbol"; "ProperName"; "NameToken"; "Score"] /\
         dict_get m "Symbol" =
           Some (PyString (symbol_of (stock_data self) proper_name)) /\
         dict_get m "ProperName" = Some (PyString proper_name) /\
         dict_get m "NameToken" = Some (PyString token) /\
         dict_get m "Score" = Some (PyFloat (similarity (nlp self) token proper_name)) /\
         strategy_of m = Some TOKEN_VS_NAME /\
         matched_text m = Some token) /\
    (forall m : Mention, In m third ->
       exists chunk proper_name : string,
         In chunk (noun_chunks (nlp self) doc) /\
         In proper_name (proper_stock_names self) /\
         dict_keys m = ["Symbol"; "ProperName"; "WordChunk"; "Score"] /\
         dict_get m "Symbol" =
           Some (PyString (symbol_of (stock_data self) proper_name)) /\
         dict_get m "ProperName" = Some (PyString proper_name) /\
         dict_get m "WordChunk" = Some (PyString chunk) /\
         dict_get m "Score" = Some (PyFloat (similarity (nlp self) chunk proper_name)) /\
         strategy_of m = Some PHRASE_VS_NAME /\
         matched_text m = Some chunk).
Proof.
  intros self tweet doc first second third. subst doc first second third.
  rewrite pass_symbols_emits, pass_names_emits, pass_chunks_emits.
  cbn [app].
  split; [apply analyze_tweet_emits |].
  split; [| split]; intros m Hin; apply in_flat_map in Hin as (text & Htext & Hin).
  - apply in_symbol_hits in Hin as (symbol & Hsymbol & _ & ->).
    exists text, symbol. repeat split; assumption.
  - apply in_name_hits in Hin as (name & Hname & _ & ->).
    exists text, name. repeat split; assumption.
  - unfold chunk_hits in Hin. destruct (1 <? _)%nat; [| destruct Hin].
    apply in_name_hits in Hin as (name & Hname & _ & ->).
    exists text, name. repeat split; assumption.
Qed.

Lemma mention_has_four_entries_witness :
  exists chunk proper_name : string,
    In chunk (noun_chunks Examples.chunking_language (strip_punctuation "Apple Inc")) /\
    In proper_name ["Apple Inc"] /\
    dict_keys Examples.same_name_mention = ["Symbol"; "ProperName"; "WordChunk"; "Score"] /\
    dict_get Examples.same_name_mention "Symbol" =
      Some (PyString (symbol_of Examples.same_name_stocks proper_name)) /\
    dict_get Examples.same_name_mention "ProperName" = Some (PyString proper_name) /\
    dict_get Examples.same_name_mention "WordChunk" = Some (PyString chunk) /\
    dict_get Examples.same_name_mention "Score" =
      Some (PyFloat (Examples.exact_match chunk proper_name)) /\
    strategy_of Examples.same_name_mention = Some PHRASE_VS_NAME /\
    matched_text Examples.same_name_mention = Some chunk.
Proof.
  apply (proj2 (proj2 (proj2
           (mention_has_four_entries
              (Examples.same_name_outlet Examples.chunking_language) "Apple Inc")))
           Examples.same_name_mention).
  vm_compute. left. reflexivity.
Defined.

(** ** The example of the spec: one instrument, an exact-match oracle *)

Lemma flat_map_nothing {A B : Type} (f : A -> list B) (xs : list A) :
  (forall x, In x xs -> f x = []) -> flat_map f xs = [].
Proof.
  induction xs as [|x xs IH]; intros Hf; [reflexivity |].
  simpl. rewrite (Hf x) by now left.
  apply IH. intros y Hy. apply Hf. now right.
Qed.

Section ExactMatch.
Import Examples.

Variable lang : Language.
Hypothesis oracle : forall a b, similarity lang a b = exact_match a b.

Lemma exact_symbol_hits token :
  symbol_hits (aapl_outlet lang) token =
  if String.eqb "AAPL" token then [aapl_mention] else [].
Proof.
  unfold symbol_hits, symbol_mention. cbn [symbols nlp aapl_outlet flat_map].
  rewrite oracle. unfold exact_match.
  destruct (String.eqb_spec "AAPL" token) as [<- | _]; reflexivity.
Qed.

Lemma exact_name_hits key text :
  text <> "Apple Inc" -> name_hits (aapl_outlet lang) key text = [].
Proof.
  intros Hneq.
  unfold name_hits. cbn [proper_stock_names nlp aapl_outlet flat_map].
  rewrite oracle. unfold exact_match.
  destruct (String.eqb_spec text "Apple Inc") as [Heq | _];
    [contradiction | reflexivity].
Qed.

(** No piece of a text that does not contain the name is the name. *)
Lemma exact_no_name_in doc :
  PyStr.is_substring "Apple Inc" doc = false ->
  cuts_text lang doc = true ->
  flat_map (name_hits (aapl_outlet lang) "NameToken") (tokens lang doc) = [] /\
  flat_map (chunk_hits (aapl_outlet lang)) (noun_chunks lang doc) = [].
Proof.
  intros Habsent Hcuts.
  unfold cuts_text in Hcuts.
  apply andb_true_iff in Hcuts as [Htok Hchunk].
  rewrite forallb_forall in Htok, Hchunk.
  assert (Hpiece : forall t, PyStr.is_substring t doc = true -> t <> "Apple Inc").
  { intros t Ht ->. rewrite Ht in Habsent. discriminate Habsent. }
  split; apply flat_map_nothing; intros t Hin.
  - apply exact_name_hits, Hpiece, Htok, Hin.
  - unfold chunk_hits. destruct (1 <? _)%nat; [| reflexivity].
    apply exact_name_hits, Hpiece, Hchunk, Hin.
Qed.

End ExactMatch.

(** C4. Over the catalog with the single instrument AAPL / Apple Inc and an
    oracle that gives 1.0 to identical strings and 0.0 otherwise,
    [_analyze_tweet "AAPL is up today"] returns exactly one mention, built by
    the first pass (token against symbol) with matched text AAPL and symbol
    AAPL, and [_analyze_tweet "nothing relevant"] returns no mention.  The
    pipeline is any one for which AAPL is not a stopword and whose tokens
    and noun chunks of the two messages are pieces of their text. *)
Theorem single_instrument_example :
  forall lang : Language,
    (forall a b, similarity lang a b = Examples.exact_match a b) ->
    PyStr.mem "AAPL" (stop_words lang) = false ->
    cuts_text lang "AAPL is up today" = true ->
    cuts_text lang "nothing relevant" = true ->
    (exists m : Mention,
        _analyze_tweet (Examples.aapl_outlet lang) "AAPL is up today" = [m] /\
        m = Examples.aapl_mention /\
        strategy_of m = Some TOKEN_VS_SYMBOL /\
        matched_text m = Some "AAPL" /\
        dict_get m "Symbol" = Some (PyString "AAPL")) /\
    _analyze_tweet (Examples.aapl_outlet lang) "nothing relevant" = [].
Proof.
  intros lang Horacle Hstop Hcuts1 Hcuts2.
  split.
  - exists Examples.aapl_mention.
    repeat split; try reflexivity.
    rewrite analyze_tweet_emits.
    change (strip_punctuation "AAPL is up today") with "AAPL is up today".
    cbn [nlp Examples.aapl_outlet].
    destruct (exact_no_name_in lang Horacle "AAPL is up today") as [-> ->];
      [reflexivity | assumption |].
    rewrite !app_nil_r.
    unfold tweet_tokens.
    change (PyStr.split_space "AAPL is up today") with ["AAPL"; "is"; "up"; "today"].
    cbn [filter]. rewrite Hstop. cbn [negb].
    destruct (negb (PyStr.mem "is" _)), (negb (PyStr.mem "up" _)),
      (negb (PyStr.mem "today" _));
      cbn [flat_map]; rewrite ?exact_symbol_hits by assumption; reflexivity.
  - rewrite analyze_tweet_emits.
    change (strip_punctuation "nothing relevant") with "nothing relevant".
    cbn [nlp Examples.aapl_outlet].
    destruct (exact_no_name_in lang Horacle "nothing relevant") as [-> ->];
      [reflexivity | assumption |].
    rewrite !app_nil_r.
    unfold tweet_tokens.
    change (PyStr.split_space "nothing relevant") with ["nothing"; "relevant"].
    cbn [filter].
    destruct (negb (PyStr.mem "nothing" _)), (negb (PyStr.mem "relevant" _));
      cbn [flat_map]; rewrite ?exact_symbol_hits by assumption; reflexivity.
Qed.

Lemma single_instrument_example_witness :
  (exists m : Mention,
      _analyze_tweet (Examples.aapl_outlet Examples.chunking_language)
                     "AAPL is up today" = [m] /\
      m = Examples.aapl_mention /\
      strategy_of m = Some TOKEN_VS_SYMBOL /\
      matched_text m = Some "AAPL" /\
      dict_get m "Symbol" = Some (PyString "AAPL")) /\
  _analyze_tweet (Examples.aapl_outlet Examples.chunking_language)
                 "nothing relevant" = [].
Proof.
  apply (single_instrument_example Examples.chunking_language).
  - intros a b. reflexivity.
  - reflexivity.
  - reflexivity.
  - reflexivity.
Defined.

(** ** The normalizer (lines 115-119) *)

Lemma mem_In word words : PyStr.mem word words = true <-> In word words.
Proof.
  unfold PyStr.mem. rewrite existsb_exists. split.
  - intros (w & Hin & Heq). apply String.eqb_eq in Heq. now subst.
  - intros Hin. exists word. split; [assumption | apply String.eqb_refl].
Qed.

(** Deleting keeps the other characters, in their order. *)
Lemma translate_delete_chars deletechars s :
  PyStr.chars (PyStr.translate_delete deletechars s) =
  filter (fun c => negb (PyStr.contains deletechars c)) (PyStr.chars s).
Proof.
  induction s as [|c s IH]; [reflexivity |].
  simpl. destruct (PyStr.contains deletechars c); simpl; now rewrite IH.
Qed.

(** Deleting nothing that occurs changes nothing. *)
Lemma translate_delete_absent deletechars s :
  (forall c, In c (PyStr.chars s) -> PyStr.contains deletechars c = false) ->
  PyStr.translate_delete deletechars s = s.
Proof.
  induction s as [|c s IH]; intros Habsent; [reflexivity |].
  simpl. rewrite (Habsent c) by now left.
  f_equal. apply IH. intros d Hd. apply Habsent. now right.
Qed.

(** The two punctuation sets differ by the hyphen only. *)
Lemma string_punctuation_hyphen c :
  PyStr.contains string_punctuation c =
  PyStr.contains PUNCTUATION c || Ascii.eqb c "-"%char.
Proof.
  destruct c as [[] [] [] [] [] [] [] []]; reflexivity.
Qed.

(** Line 115 on a text without hyphen deletes exactly [PUNCTUATION]. *)
Lemma strip_punctuation_hyphen_free tweet :
  ~ In "-"%char (PyStr.chars tweet) ->
  strip_punctuation tweet = PyStr.translate_delete PUNCTUATION tweet.
Proof.
  unfold strip_punctuation.
  induction tweet as [|c s IH]; intros Hfree; [reflexivity |].
  cbn [PyStr.chars In] in Hfree.
  cbn [PyStr.translate_delete]. rewrite string_punctuation_hyphen.
  destruct (Ascii.eqb_spec c "-"%char) as [-> | _]; [tauto |].
  rewrite orb_false_r, IH by tauto. reflexivity.
Qed.

(** The pieces of a split are made of characters of the text. *)
Lemma split_space_chars s piece c :
  In piece (PyStr.split_space s) -> In c (PyStr.chars piece) -> In c (PyStr.chars s).
Proof.
  revert piece.
  induction s as [|d s IH]; intros piece Hpiece Hc; simpl in Hpiece.
  - destruct Hpiece as [<- | []]. assumption.
  - destruct (Ascii.eqb d " "%char).
    + destruct Hpiece as [<- | Hpiece]; [destruct Hc |].
      right. eapply IH; eassumption.
    + destruct (PyStr.split_space s) as [|first rest].
      * destruct Hpiece as [<- | []]. destruct Hc as [<- | []]. now left.
      * destruct Hpiece as [<- | Hpiece].
        -- destruct Hc as [<- | Hc]; [now left | right].
           apply (IH first); [now left | assumption].
        -- right. apply (IH piece); [now right | assumption].
Qed.

(** C2, at the input where the code leaves the claim. [PUNCTUATION] (line 21)
    has no hyphen and deleting it would keep [BRK-B] as it is, but line 115
    deletes [string.punctuation], which has the hyphen: the hyphen of
    [BRK-B] is removed. *)
Theorem strip_punctuation_removes_hyphen :
  PyStr.contains PUNCTUATION "-"%char = false /\
  PyStr.translate_delete PUNCTUATION "BRK-B" = "BRK-B" /\
  strip_punctuation "BRK-B" = "BRKB".
Proof. repeat split; reflexivity. Qed.

(** C5. No token that the first pass goes through is in the stopword list,
    and none contains a character of [PUNCTUATION]. *)
Theorem tokens_without_stopwords_and_punctuation :
  forall (lang : Language) (tweet token : string),
    In token (tweet_tokens lang (strip_punctuation tweet)) ->
    ~ In token (stop_words lang) /\
    forall c : ascii,
      In c (PyStr.chars token) -> PyStr.contains PUNCTUATION c = false.
Proof.
  intros lang tweet token Hin.
  unfold tweet_tokens in Hin.
  apply filter_In in Hin as [Hpiece Hstop].
  split.
  - intros Hmem. apply mem_In in Hmem. rewrite Hmem in Hstop. discriminate Hstop.
  - intros c Hc.
    pose proof (split_space_chars _ _ _ Hpiece Hc) as Hkept.
    unfold strip_punctuation in Hkept.
    rewrite translate_delete_chars in Hkept.
    apply filter_In in Hkept as [_ Hkept].
    rewrite string_punctuation_hyphen in Hkept.
    destruct (PyStr.contains PUNCTUATION c); [discriminate Hkept | reflexivity].
Qed.

Lemma tokens_without_stopwords_and_punctuation_witness :
  ~ In "AAPLs" (stop_words Examples.plain_language) /\
  forall c : ascii,
    In c (PyStr.chars "AAPLs") -> PyStr.contains PUNCTUATION c = false.
Proof.
  apply (tokens_without_stopwords_and_punctuation
           Examples.plain_language "$AAPL's up!" "AAPLs").
  vm_compute. left. reflexivity.
Defined.

(** ** The empty message *)

(** C8, as the spec states it, fails: [split(" ")] of the empty text is one
    empty string, which is a token of the first pass unless it is a
    stopword; and an oracle that scores it at the threshold or above against
    a symbol gives a mention. *)
Lemma empty_message_has_a_token :
  tweet_tokens Examples.plain_language (strip_punctuation EmptyString) = [EmptyString] /\
  tweet_tokens Examples.plain_language (strip_punctuation EmptyString) <> [] /\
  _analyze_tweet (Examples.aapl_outlet Examples.credulous_language) EmptyString <> [].
Proof.
  repeat split; vm_compute; discriminate.
Qed.

(** C8, amended. For the empty message, when the empty string is not a
    stopword, the first pass has the single token [EmptyString]; when the
    pipeline gives the empty document no token and no noun chunk, and the
    oracle scores the empty token below the threshold against every symbol,
    [_analyze_tweet] returns no mention (and it returns: the function is
    total). *)
Theorem empty_message_no_mention :
  forall self : SMTPStockEmailOutlet,
    PyStr.mem EmptyString (stop_words (nlp self)) = false ->
    tokens (nlp self) EmptyString = [] ->
    noun_chunks (nlp self) EmptyString = [] ->
    (forall symbol, In symbol (symbols self) ->
       above_threshold (similarity (nlp self) symbol EmptyString) = false) ->
    tweet_tokens (nlp self) (strip_punctuation EmptyString) = [EmptyString] /\
    _analyze_tweet self EmptyString = [].
Proof.
  intros self Hstop Htokens Hchunks Hbelow.
  assert (Htok : tweet_tokens (nlp self) (strip_punctuation EmptyString) = [EmptyString]).
  { unfold tweet_tokens. simpl. now rewrite Hstop. }
  split; [exact Htok |].
  rewrite analyze_tweet_emits, Htok.
  change (strip_punctuation EmptyString) with EmptyString.
  rewrite Htokens, Hchunks. simpl. rewrite !app_nil_r.
  unfold symbol_hits. apply flat_map_nothing.
  intros symbol Hin. now rewrite (Hbelow symbol Hin).
Qed.

Lemma empty_message_no_mention_witness :
  tweet_tokens Examples.plain_language (strip_punctuation EmptyString) = [EmptyString] /\
  _analyze_tweet (Examples.aapl_outlet Examples.plain_language) EmptyString = [].
Proof.
  apply (empty_message_no_mention (Examples.aapl_outlet Examples.plain_language)).
  - reflexivity.
  - reflexivity.
  - reflexivity.
  - intros symbol [<- | []]. reflexivity.
Defined.

(** ** The reverse lookups (lines 131-137, 148-154, 168-174) *)

Lemma append_empty_r s : (s ++ EmptyString)%string = s.
Proof. induction s as [|c s IH]; [reflexivity | simpl; now rewrite IH]. Qed.

Lemma symbol_of_bearing catalog proper_name :
  symbol_of catalog proper_name = symbols_bearing proper_name catalog.
Proof.
  unfold symbol_of.
  induction catalog as [|stock rest IH]; [reflexivity |].
  simpl. destruct (String.eqb (Name stock) proper_name); simpl; now rewrite <- IH.
Qed.

Lemma proper_name_of_carrying catalog symbol :
  proper_name_of catalog symbol = names_carrying symbol catalog.
Proof.
  unfold proper_name_of.
  induction catalog as [|stock rest IH]; [reflexivity |].
  simpl. destruct (String.eqb (Symbol stock) symbol); simpl; now rewrite <- IH.
Qed.

Lemma symbols_bearing_absent catalog proper_name :
  ~ In proper_name (map Name catalog) ->
  symbols_bearing proper_name catalog = EmptyString.
Proof.
  induction catalog as [|stock rest IH]; intros Habsent; [reflexivity |].
  simpl in *.
  destruct (String.eqb_spec (Name stock) proper_name) as [Heq | _]; [tauto |].
  apply IH. tauto.
Qed.

Lemma names_carrying_absent catalog symbol :
  ~ In symbol (map Symbol catalog) ->
  names_carrying symbol catalog = EmptyString.
Proof.
  induction catalog as [|stock rest IH]; intros Habsent; [reflexivity |].
  simpl in *.
  destruct (String.eqb_spec (Symbol stock) symbol) as [Heq | _]; [tauto |].
  apply IH. tauto.
Qed.

(** With distinct symbols, the lookup of a symbol gives the name of its one
    record. *)
Lemma names_carrying_unique catalog stock :
  NoDup (map Symbol catalog) -> In stock catalog ->
  names_carrying (Symbol stock) catalog = Name stock.
Proof.
  induction catalog as [|first rest IH]; intros Hnodup Hin; [destruct Hin |].
  simpl in Hnodup. apply NoDup_cons_iff in Hnodup as [Hfresh Hnodup].
  simpl. destruct Hin as [-> | Hin].
  - rewrite String.eqb_refl, names_carrying_absent by assumption.
    apply append_empty_r.
  - destruct (String.eqb_spec (Symbol first) (Symbol stock)) as [Heq | _].
    + exfalso. apply Hfresh. rewrite Heq. now apply in_map.
    + now apply IH.
Qed.

Lemma symbols_bearing_unique catalog stock :
  NoDup (map Name catalog) -> In stock catalog ->
  symbols_bearing (Name stock) catalog = Symbol stock.
Proof.
  induction catalog as [|first rest IH]; intros Hnodup Hin; [destruct Hin |].
  simpl in Hnodup. apply NoDup_cons_iff in Hnodup as [Hfresh Hnodup].
  simpl. destruct Hin as [-> | Hin].
  - rewrite String.eqb_refl, symbols_bearing_absent by assumption.
    apply append_empty_r.
  - destruct (String.eqb_spec (Name first) (Name stock)) as [Heq | _].
    + exfalso. apply Hfresh. rewrite Heq. now apply in_map.
    + now apply IH.
Qed.

(** C7, as the spec states it, fails: in a catalog whose two records have
    distinct symbols and the same name, the symbol looked up for the name of
    AAPL is the two symbols written together. *)
Lemma round_trip_fails_on_shared_name :
  In "AAPL" (map Symbol Examples.same_name_stocks) /\
  NoDup (map Symbol Examples.same_name_stocks) /\
  symbol_of Examples.same_name_stocks
            (proper_name_of Examples.same_name_stocks "AAPL") = "AAPLGOOG" /\
  symbol_of Examples.same_name_stocks
            (proper_name_of Examples.same_name_stocks "AAPL") <> "AAPL".
Proof.
  split; [now left |].
  split.
  - repeat (constructor; [simpl; intuition discriminate |]); constructor.
  - split; [reflexivity | vm_compute; discriminate].
Qed.

(** C7, amended. In a catalog where no two records have the same symbol and
    no two have the same name, looking up the name of a symbol of the
    catalog and then the symbol of that name gives the symbol back; and in
    any catalog both lookups give the empty string for a key that no record
    has. *)
Theorem round_trip_on_distinct_names :
  forall catalog : list Stock,
    NoDup (map Symbol catalog) ->
    NoDup (map Name catalog) ->
    (forall symbol, In symbol (map Symbol catalog) ->
       symbol_of catalog (proper_name_of catalog symbol) = symbol) /\
    (forall symbol, ~ In symbol (map Symbol catalog) ->
       proper_name_of catalog symbol = EmptyString) /\
    (forall proper_name, ~ In proper_name (map Name catalog) ->
       symbol_of catalog proper_name = EmptyString).
Proof.
  intros catalog Hsymbols Hnames.
  split; [| split].
  - intros symbol Hin.
    apply in_map_iff in Hin as (stock & <- & Hin).
    rewrite proper_name_of_carrying, names_carrying_unique by assumption.
    rewrite symbol_of_bearing. now apply symbols_bearing_unique.
  - intros symbol Habsent.
    rewrite proper_name_of_carrying. now apply names_carrying_absent.
  - intros name Habsent.
    rewrite symbol_of_bearing. now apply symbols_bearing_absent.
Qed.

Lemma round_trip_on_distinct_names_witness :
  (forall symbol, In symbol (map Symbol [Examples.aapl]) ->
     symbol_of [Examples.aapl] (proper_name_of [Examples.aapl] symbol) = symbol) /\
  (forall symbol, ~ In symbol (map Symbol [Examples.aapl]) ->
     proper_name_of [Examples.aapl] symbol = EmptyString) /\
  (forall proper_name, ~ In proper_name (map Name [Examples.aapl]) ->
     symbol_of [Examples.aapl] proper_name = EmptyString).
Proof.
  apply (round_trip_on_distinct_names [Examples.aapl]).
  - constructor; [intros [] | constructor].
  - constructor; [intros [] | constructor].
Defined.

(** C10. A mention built by the second or third pass stores under [Symbol]
    the symbols of all records that bear its [ProperName], written one after
    the other; a mention built by the first pass stores under [ProperName]
    the names of all records that carry its [Symbol], written one after the
    other. *)
Theorem lookups_concatenate :
  forall (self : SMTPStockEmailOutlet) (tweet : string) (m : Mention),
    In m (_analyze_tweet self tweet) ->
    exists symbol proper_name : string,
      dict_get m "Symbol" = Some (PyString symbol) /\
      dict_get m "ProperName" = Some (PyString proper_name) /\
      match strategy_of m with
      | Some TOKEN_VS_SYMBOL =>
          proper_name = names_carrying symbol (stock_data self)
      | Some TOKEN_VS_NAME | Some PHRASE_VS_NAME =>
          symbol = symbols_bearing proper_name (stock_data self)
      | None => False
      end.
Proof.
  intros self tweet m Hin.
  by_origin Hin.
  - exists symbol, (proper_name_of (stock_data self) symbol).
    repeat split. apply proper_name_of_carrying.
  - exists (symbol_of (stock_data self) name), name.
    repeat split. apply symbol_of_bearing.
  - exists (symbol_of (stock_data self) name), name.
    repeat split. apply symbol_of_bearing.
Qed.

Lemma lookups_concatenate_witness :
  exists symbol proper_name : string,
    dict_get Examples.same_name_mention "Symbol" = Some (PyString symbol) /\
    dict_get Examples.same_name_mention "ProperName" = Some (PyString proper_name) /\
    match strategy_of Examples.same_name_mention with
    | Some TOKEN_VS_SYMBOL =>
        proper_name = names_carrying symbol Examples.same_name_stocks
    | Some TOKEN_VS_NAME | Some PHRASE_VS_NAME =>
        symbol = symbols_bearing proper_name Examples.same_name_stocks
    | None => False
    end.
Proof.
  apply (lookups_concatenate
           (Examples.same_name_outlet Examples.chunking_language)
           "Apple Inc" Examples.same_name_mention).
  vm_compute. left. reflexivity.
Defined.

(** The example of C10: two records named alike give the symbol AAPLGOOG. *)
Example shared_name_symbol :
  _analyze_tweet (Examples.same_name_outlet Examples.chunking_language) "Apple Inc"
  = [Examples.same_name_mention] /\
  dict_get Examples.same_name_mention "Symbol" = Some (PyString "AAPLGOOG").
Proof. split; reflexivity. Qed.

(** ** Determinism *)

Lemma tweet_tokens_same_answers a b text :
  same_answers a b -> tweet_tokens a text = tweet_tokens b text.
Proof.
  intros (Hstop & _). unfold tweet_tokens.
  apply filter_ext. intros word. now rewrite Hstop.
Qed.

Lemma symbol_hits_same a b token :
  same_catalog a b -> same_answers (nlp a) (nlp b) ->
  symbol_hits a token = symbol_hits b token.
Proof.
  intros (Hdata & Hsymbols & _) (_ & _ & _ & Hsim).
  unfold symbol_hits, symbol_mention.
  rewrite Hsymbols, Hdata.
  apply flat_map_ext. intros symbol. now rewrite Hsim.
Qed.

Lemma name_hits_same a b key text :
  same_catalog a b -> same_answers (nlp a) (nlp b) ->
  name_hits a key text = name_hits b key text.
Proof.
  intros (Hdata & _ & Hnames) (_ & _ & _ & Hsim).
  unfold name_hits, name_mention.
  rewrite Hnames, Hdata.
  apply flat_map_ext. intros name. now rewrite Hsim.
Qed.

(** The result depends on the outlet only through its records, the order
    of its sets and the answers of its pipeline. *)
Lemma analyze_tweet_same_answers :
  forall (first second : SMTPStockEmailOutlet) (tweet : string),
    same_catalog first second ->
    same_answers (nlp first) (nlp second) ->
    _analyze_tweet first tweet = _analyze_tweet second tweet.
Proof.
  intros a b tweet Hcatalog Hanswers.
  rewrite !analyze_tweet_emits.
  rewrite (tweet_tokens_same_answers _ _ _ Hanswers).
  pose proof Hanswers as (_ & Htokens & Hchunks & _).
  rewrite Htokens, Hchunks.
  f_equal; [| f_equal]; apply flat_map_ext; intros text.
  - now apply symbol_hits_same.
  - now apply name_hits_same.
  - unfold chunk_hits. destruct (1 <? _)%nat; [| reflexivity].
    now apply name_hits_same.
Qed.

(** The iteration order of the symbol set is part of what the result depends
    on: the same records with the set iterating the other way round give the
    same mentions in another order. *)
Example symbol_set_order_shows :
  _analyze_tweet (Examples.same_name_outlet Examples.credulous_language) "x"
  <> _analyze_tweet (Examples.same_name_outlet_rev Examples.credulous_language) "x" /\
  Permutation
    (_analyze_tweet (Examples.same_name_outlet Examples.credulous_language) "x")
    (_analyze_tweet (Examples.same_name_outlet_rev Examples.credulous_language) "x").
Proof.
  split.
  - vm_compute. discriminate.
  - vm_compute. apply perm_swap.
Qed.

(** ** Loading *)

Module LoaderFacts.
Import Loader.

Lemma usable_field_complete entry key :
  usable_field entry key = true -> has_field entry key = true.
Proof.
  unfold usable_field, has_field, getitem.
  destruct entry; try discriminate.
  destruct (lookup key members); [reflexivity | discriminate].
Qed.

Lemma unusable_field entry key :
  usable_field entry key = false ->
  has_field entry key = false \/ unhashable_field entry key = true.
Proof.
  unfold usable_field, unhashable_field, has_field, getitem.
  destruct entry; auto.
  destruct (lookup key members); simpl; [| auto].
  intros ->. now right.
Qed.

Lemma unusable_field_inv entry key :
  has_field entry key = false \/ unhashable_field entry key = true ->
  usable_field entry key = false.
Proof.
  unfold usable_field, unhashable_field, has_field, getitem.
  destruct entry; try reflexivity.
  destruct (lookup key members); simpl.
  - intros [Hfield | Hhash]; [discriminate |].
    now apply negb_true_iff in Hhash.
  - reflexivity.
Qed.

(** A loop raises when its body raises at one of the elements, whatever
    the state it is reached in. *)
Lemma for_each_m_raises {A S : Type} (body : A -> S -> result S) xs x :
  In x xs ->
  (forall s, exists e, body x s = inl e) ->
  forall s, exists e, for_each_m xs body s = inl e.
Proof.
  intros Hin Hraises.
  induction xs as [|y rest IH]; intros s; [destruct Hin |].
  simpl. destruct (body y s) as [e | s'] eqn:Hbody.
  - exists e. reflexivity.
  - simpl. destruct Hin as [-> | Hin].
    + destruct (Hraises s) as [e He]. congruence.
    + now apply IH.
Qed.

(** A loop that raised did so in its body, at one of the elements. *)
Lemma for_each_m_raised {A S : Type} (body : A -> S -> result S) xs :
  forall s e, for_each_m xs body s = inl e ->
  exists x s0, In x xs /\ body x s0 = inl e.
Proof.
  induction xs as [|y rest IH]; intros s e Hrun; [discriminate |].
  simpl in Hrun. destruct (body y s) as [e' | s1] eqn:Hbody; simpl in Hrun.
  - injection Hrun as ->. exists y, s. split; [now left | assumption].
  - destruct (IH _ _ Hrun) as (x & s0 & Hin & Hx).
    exists x, s0. split; [now right | assumption].
Qed.

(** A loop that returns has run its body, without an exception, at every
    element. *)
Lemma for_each_m_returns {A S : Type} (body : A -> S -> result S) xs :
  forall s s', for_each_m xs body s = inr s' ->
  forall x, In x xs -> exists s0 s1, body x s0 = inr s1.
Proof.
  induction xs as [|y rest IH]; intros s s' Hrun x Hin; [destruct Hin |].
  simpl in Hrun. destruct (body y s) as [e | s1] eqn:Hbody; [discriminate |].
  simpl in Hrun. destruct Hin as [-> | Hin].
  - now exists s, s1.
  - eapply IH; eassumption.
Qed.

Section Environment.
Variable read_file : string -> option string.
Variable json_loads : string -> option json.
Variable set_place : json -> list json -> list json.

(** The body of both loops reads a field and adds it to the set: it
    returns exactly when the field is usable. *)
Lemma collect_outcome key entry found :
  match v <- getitem entry key ;; set_add set_place v found with
  | inr _ => usable_field entry key = true
  | inl _ => usable_field entry key = false
  end.
Proof.
  unfold usable_field, set_add.
  destruct (getitem entry key) as [e | v]; simpl; [reflexivity |].
  destruct (hashable v); reflexivity.
Qed.

Lemma collect_loop_raises key entries entry :
  In entry entries -> usable_field entry key = false ->
  forall found,
  exists e,
    for_each_m entries
      (fun entry found => v <- getitem entry key ;; set_add set_place v found)
      found = inl e.
Proof.
  intros Hin Hfield.
  apply (for_each_m_raises _ entries entry Hin).
  intros found. pose proof (collect_outcome key entry found) as Hout.
  destruct (v <- getitem entry key ;; set_add set_place v found) as [e | found'].
  - now exists e.
  - congruence.
Qed.

Lemma collect_loop_raised key entries found e :
  for_each_m entries
    (fun entry found => v <- getitem entry key ;; set_add set_place v found)
    found = inl e ->
  exists entry, In entry entries /\ usable_field entry key = false.
Proof.
  intros Hrun.
  apply for_each_m_raised in Hrun as (entry & found0 & Hin & Hbody).
  exists entry. split; [assumption |].
  pose proof (collect_outcome key entry found0) as Hout.
  now rewrite Hbody in Hout.
Qed.

Lemma collect_loop_returns key entries found found' :
  for_each_m entries
    (fun entry found => v <- getitem entry key ;; set_add set_place v found)
    found = inr found' ->
  forall entry, In entry entries -> usable_field entry key = true.
Proof.
  intros Hrun entry Hin.
  destruct (for_each_m_returns _ _ _ _ Hrun entry Hin) as (s0 & s1 & Hbody).
  pose proof (collect_outcome key entry s0) as Hout.
  now rewrite Hbody in Hout.
Qed.

(** Collecting a field over a source returns exactly when the source is a
    collection whose entries all have the field usable. *)
Lemma collect_all_outcome key value :
  match entries <- py_iter value ;;
        for_each_m entries
          (fun entry found => v <- getitem entry key ;; set_add set_place v found)
          [] with
  | inr _ =>
      exists entries,
        py_iter value = inr entries /\
        forall entry, In entry entries -> usable_field entry key = true
  | inl _ =>
      py_iter value = inl TypeError \/
      exists entries entry,
        py_iter value = inr entries /\ In entry entries /\
        usable_field entry key = false
  end.
Proof.
  destruct (py_iter value) as [e | entries] eqn:Hiter; cbn [bind].
  - left. destruct value; simpl in Hiter; try discriminate Hiter;
      now injection Hiter as <-.
  - destruct (for_each_m entries _ []) as [e | found] eqn:Hloop.
    + right. apply collect_loop_raised in Hloop as (entry & Hin & Hfield).
      now exists entries, entry.
    + exists entries. split; [reflexivity |].
      eapply collect_loop_returns, Hloop.
Qed.

Lemma get_symbols_outcome value :
  match _get_symbols set_place value with
  | inr _ =>
      exists entries,
        py_iter value = inr entries /\
        forall entry, In entry entries -> usable_field entry "Symbol" = true
  | inl _ =>
      py_iter value = inl TypeError \/
      exists entries entry,
        py_iter value = inr entries /\ In entry entries /\
        usable_field entry "Symbol" = false
  end.
Proof. exact (collect_all_outcome "Symbol" value). Qed.

Lemma get_stock_proper_name_outcome value :
  match _get_stock_proper_name set_place value with
  | inr _ =>
      exists entries,
        py_iter value = inr entries /\
        forall entry, In entry entries -> usable_field entry "Name" = true
  | inl _ =>
      py_iter value = inl TypeError \/
      exists entries entry,
        py_iter value = inr entries /\ In entry entries /\
        usable_field entry "Name" = false
  end.
Proof. exact (collect_all_outcome "Name" value). Qed.

(** The constructor returns a catalog when the file is there, parses, is a
    collection, and every entry has both fields usable; it raises
    otherwise. *)
Lemma init_catalog_outcome path :
  match init_catalog read_file json_loads set_place path with
  | inr catalog =>
      exists text entries,
        read_file path = Some text /\
        json_loads text = Some (stock_data catalog) /\
        py_iter (stock_data catalog) = inr entries /\
        forall entry, In entry entries ->
          usable_field entry "Symbol" = true /\ usable_field entry "Name" = true
  | inl _ =>
      read_file path = None \/
      exists text,
        read_file path = Some text /\
        (json_loads text = None \/
         exists value,
           json_loads text = Some value /\
           (py_iter value = inl TypeError \/
            exists entries entry,
              py_iter value = inr entries /\ In entry entries /\
              (usable_field entry "Symbol" = false \/
               usable_field entry "Name" = false)))
  end.
Proof.
  unfold init_catalog, _load_data.
  destruct (read_file path) as [text |]; [| now left].
  destruct (json_loads text) as [value |] eqn:Hjson;
    [| right; exists text; auto].
  cbn [bind ret raise].
  pose proof (get_symbols_outcome value) as Hsymbols.
  pose proof (get_stock_proper_name_outcome value) as Hnames.
  destruct (_get_symbols set_place value) as [e | found_symbols]; cbn [bind].
  - right. exists text. split; [reflexivity |]. right. exists value.
    split; [exact Hjson |].
    destruct Hsymbols as [Hiter | (entries & entry & Hiter & Hin & Hfield)];
      [now left | right].
    exists entries, entry. auto.
  - destruct (_get_stock_proper_name set_place value) as [e | found_names];
      cbn [bind ret].
    + right. exists text. split; [reflexivity |]. right. exists value.
      split; [exact Hjson |].
      destruct Hnames as [Hiter | (entries & entry & Hiter & Hin & Hfield)];
        [now left | right].
      exists entries, entry. auto.
    + cbn [stock_data].
      destruct Hsymbols as (entries & Hiter & Hsymbols).
      destruct Hnames as (entries' & Hiter' & Hnames).
      assert (entries' = entries) as -> by congruence.
      exists text, entries.
      split; [reflexivity |]. split; [exact Hjson |]. split; [exact Hiter |].
      intros entry Hin. split; auto.
Qed.

End Environment.

End LoaderFacts.

(** Loading raises only on a bad source. *)
Lemma load_raises_only_on_bad_source read_file json_loads set_place path e :
  Loader.init_catalog read_file json_loads set_place path = inl e ->
  Loader.bad_source read_file json_loads path.
Proof.
  intros Hinit.
  pose proof (LoaderFacts.init_catalog_outcome read_file json_loads set_place path)
    as Hout.
  rewrite Hinit in Hout.
  destruct Hout as [Hmissing | (text & Hfile & [Hjson | (value & Hjson & Hvalue)])].
  - now apply Loader.source_missing.
  - eapply Loader.source_not_json; eassumption.
  - destruct Hvalue as [Hiter | (entries & entry & Hiter & Hin & Hfield)].
    + eapply Loader.source_not_a_collection; eassumption.
    + assert (Hkey : exists key, (key = "Symbol" \/ key = "Name") /\
                                 Loader.usable_field entry key = false).
      { destruct Hfield; [exists "Symbol" | exists "Name"]; auto. }
      destruct Hkey as (key & Hkey & Hunusable).
      apply LoaderFacts.unusable_field in Hunusable as [Hlacks | Hhash].
      * eapply Loader.source_incomplete_record; try eassumption.
        unfold Loader.complete_record.
        destruct Hkey as [-> | ->]; rewrite Hlacks;
          [reflexivity | apply andb_false_r].
      * eapply Loader.source_unhashable_field; eassumption.
Qed.

(** The record without a name makes the load raise [KeyError]; the record
    before it, which is complete, is not kept as a catalog of its own.  An
    empty object at the top of the source is read as no record at all. *)
Example load_examples :
  Loader.init_catalog (Sources.one_file "nameless") Sources.parser
                      Sources.place_last Sources.datapath
  = inl (Loader.KeyError "Name") /\
  Loader.init_catalog (Sources.one_file "aapl") Sources.parser
                      Sources.place_last "elsewhere.json"
  = inl Loader.OSError /\
  Loader.init_catalog (Sources.one_file "not json") Sources.parser
                      Sources.place_last Sources.datapath
  = inl Loader.JSONDecodeError /\
  Loader.init_catalog (Sources.one_file "empty object") Sources.parser
                      Sources.place_last Sources.datapath
  = inr {| Loader.stock_data := Loader.JObject [];
           Loader.symbols := [];
           Loader.proper_stock_names := [] |} /\
  Loader.init_catalog (Sources.one_file "aapl") Sources.parser
                      Sources.place_last Sources.datapath
  = inr {| Loader.stock_data := Loader.JArray [json_of_stock Examples.aapl];
           Loader.symbols := [Loader.JString "AAPL"];
           Loader.proper_stock_names := [Loader.JString "Apple Inc"] |}.
Proof. repeat split; reflexivity. Qed.

(** ** From a well-formed source to the outlet *)

Lemma all_of_stocks stocks :
  all_of (map Loader.stock_of (map json_of_stock stocks)) = Some stocks.
Proof.
  induction stocks as [|[symbol name] rest IH]; [reflexivity |].
  simpl in *. now rewrite IH.
Qed.

Lemma all_of_strings texts :
  all_of (map string_of (map Loader.JString texts)) = Some texts.
Proof.
  induction texts as [|text rest IH]; [reflexivity |].
  simpl. now rewrite IH.
Qed.

Lemma existsb_py_eq_strings text texts :
  existsb (Loader.py_eq (Loader.JString text)) (map Loader.JString texts) =
  PyStr.mem text texts.
Proof.
  unfold PyStr.mem.
  induction texts as [|t rest IH]; [reflexivity |].
  simpl. now rewrite IH.
Qed.

Section LoadedOutlet.
Variable read_file : string -> option string.
Variable json_loads : string -> option Loader.json.
Variable set_place : Loader.json -> list Loader.json -> list Loader.json.

(** A set iterates over the elements it had and the one that was added. *)
Hypothesis place_permutes :
  forall v s, Permutation (set_place v s) (v :: s).

(** Collecting one string field of the records into a set: the loop
    returns, and the set holds each value of the field once. *)
Lemma collect_field (key : string) (field : Stock -> string) :
  (forall stock,
      Loader.getitem (json_of_stock stock) key = inr (Loader.JString (field stock))) ->
  forall stocks found,
    NoDup found ->
    exists found',
      Loader.for_each_m (map json_of_stock stocks)
        (fun entry found =>
           Loader.bind (Loader.getitem entry key)
                       (fun v => Loader.set_add set_place v found))
        (map Loader.JString found)
      = inr (map Loader.JString found') /\
      NoDup found' /\
      forall text, In text found' <-> In text found \/ In text (map field stocks).
Proof.
  intros Hfield stocks.
  induction stocks as [|stock rest IH]; intros found Hnodup.
  - exists found. simpl. repeat split; tauto.
  - cbn [map Loader.for_each_m]. rewrite Hfield.
    unfold Loader.bind at 2. unfold Loader.set_add. cbn [Loader.hashable].
    rewrite existsb_py_eq_strings.
    destruct (PyStr.mem (field stock) found) eqn:Hmem.
    + apply mem_In in Hmem.
      destruct (IH found Hnodup) as (found' & Hrun & Hnodup' & Hiff).
      exists found'. cbn [Loader.ret Loader.bind]. split; [exact Hrun |]. split; [exact Hnodup' |].
      intros text. rewrite Hiff. simpl. intuition (subst; auto).
    + assert (Hfresh : ~ In (field stock) found).
      { intros Hin. apply mem_In in Hin. congruence. }
      pose proof (place_permutes (Loader.JString (field stock)) (map Loader.JString found)) as Hperm.
      change (Loader.JString (field stock) :: map Loader.JString found)
        with (map Loader.JString (field stock :: found)) in Hperm.
      apply Permutation_map_inv in Hperm as (placed & Hplaced & Hperm).
      assert (Hnodup' : NoDup placed).
      { eapply Permutation_NoDup; [exact Hperm |]. now constructor. }
      destruct (IH placed Hnodup') as (found' & Hrun & Hnodup'' & Hiff).
      exists found'. cbn [Loader.ret Loader.bind]. rewrite Hplaced.
      split; [exact Hrun |]. split; [exact Hnodup'' |].
      intros text. rewrite Hiff. simpl.
      split.
      * intros [Hin | Hin]; [| tauto].
        apply Permutation_sym in Hperm.
        apply (Permutation_in _ Hperm) in Hin. simpl in Hin. tauto.
      * intros [Hin | [Heq | Hin]]; [left | left | tauto].
        -- apply (Permutation_in _ Hperm). now right.
        -- apply (Permutation_in _ Hperm). now left.
Qed.

(** A source that is a list of records with string fields loads, and the
    catalog is an outlet over exactly these records, whose sets hold each
    symbol and each name once, in the order the sets iterate. *)
Lemma loaded_outlet path text stocks lang :
  read_file path = Some text ->
  json_loads text = Some (Loader.JArray (map json_of_stock stocks)) ->
  exists catalog outlet,
    Loader.init_catalog read_file json_loads set_place path = inr catalog /\
    outlet_of catalog lang = Some outlet /\
    stock_data outlet = stocks /\
    nlp outlet = lang /\
    NoDup (symbols outlet) /\
    (forall symbol,
        In symbol (symbols outlet) <->
        In symbol (map Symbol stocks)) /\
    NoDup (proper_stock_names outlet) /\
    (forall name,
        In name (proper_stock_names outlet) <-> In name (map Name stocks)).
Proof.
  intros Hfile Hjson.
  destruct (collect_field "Symbol" Symbol (fun _ => eq_refl) stocks [] (NoDup_nil _))
    as (found_symbols & Hsymbols & Hnodup_s & Hiff_s).
  destruct (collect_field "Name" Name (fun _ => eq_refl) stocks [] (NoDup_nil _))
    as (found_names & Hnames & Hnodup_n & Hiff_n).
  eexists. eexists.
  unfold Loader.init_catalog, Loader._load_data. rewrite Hfile, Hjson.
  cbn [Loader.bind Loader.ret].
  unfold Loader._get_symbols, Loader._get_stock_proper_name.
  cbn [Loader.py_iter Loader.bind Loader.ret].
  change (@nil Loader.json) with (map Loader.JString []).
  rewrite Hsymbols, Hnames. cbn [Loader.bind Loader.ret].
  split; [reflexivity |].
  unfold outlet_of. cbn [Loader.stock_data Loader.symbols Loader.proper_stock_names].
  rewrite all_of_stocks, !all_of_strings.
  split; [reflexivity |].
  cbn [stock_data symbols proper_stock_names nlp].
  split; [reflexivity |]. split; [reflexivity |].
  split; [exact Hnodup_s |].
  split; [intros symbol; rewrite Hiff_s; simpl; tauto |].
  split; [exact Hnodup_n |].
  intros name. rewrite Hiff_n. simpl. tauto.
Qed.

End LoadedOutlet.

(** The source with the single instrument of the spec's example loads as the
    outlet that example is stated over. *)
Example loaded_single_instrument :
  forall lang : Language,
  exists catalog : Loader.Catalog,
    Loader.init_catalog (Sources.one_file "aapl") Sources.parser
                        Sources.place_last Sources.datapath = inr catalog /\
    outlet_of catalog lang = Some (Examples.aapl_outlet lang).
Proof. intros lang. eexists. split; reflexivity. Qed.

(** ** Further properties of [_analyze_tweet] *)

Lemma flat_map_pairs {A B C : Type} (keep : A -> B -> bool) (make : A -> B -> C) xs ys :
  flat_map (fun x => flat_map (fun y => if keep x y then [make x y] else []) ys) xs
  = map (fun p => make (fst p) (snd p))
        (filter (fun p => keep (fst p) (snd p)) (list_prod xs ys)).
Proof.
  induction xs as [|x xs IH]; [reflexivity |].
  simpl. rewrite filter_app, map_app, <- IH. f_equal.
  clear IH. induction ys as [|y ys IH]; [reflexivity |].
  simpl. destruct (keep x y); simpl; now rewrite IH.
Qed.

Lemma flat_map_when {A B : Type} (p : A -> bool) (f : A -> list B) xs :
  flat_map (fun x => if p x then f x else []) xs = flat_map f (filter p xs).
Proof.
  induction xs as [|x xs IH]; [reflexivity |].
  simpl. destruct (p x); simpl; now rewrite IH.
Qed.

(** The noun chunks of more than one word, which the third pass compares. *)
Lemma chunk_hits_multiword self chunks :
  flat_map (chunk_hits self) chunks =
  flat_map (name_hits self "WordChunk")
    (filter (fun chunk => (1 <? List.length (PyStr.split_space chunk))%nat) chunks).
Proof. unfold chunk_hits. apply flat_map_when. Qed.

(** X1. The three nested loops are three filters over pairs: the result is
    the mentions of the (token, symbol) pairs at or above the threshold, in
    token-major order, followed by those of the (document token, name)
    pairs, followed by those of the (multi-word noun chunk, name) pairs.
    Nothing at or above the threshold is dropped or merged, and nothing is
    reordered. *)
Theorem analyze_tweet_as_filters :
  forall (self : SMTPStockEmailOutlet) (tweet : string),
    let doc := strip_punctuation tweet in
    let scores a b := above_threshold (similarity (nlp self) a b) in
    _analyze_tweet self tweet =
    map (fun p => symbol_mention self (fst p) (snd p))
        (filter (fun p => scores (snd p) (fst p))
                (list_prod (tweet_tokens (nlp self) doc) (symbols self)))
    ++ map (fun p => name_mention self "NameToken" (fst p) (snd p))
           (filter (fun p => scores (fst p) (snd p))
                   (list_prod (tokens (nlp self) doc) (proper_stock_names self)))
    ++ map (fun p => name_mention self "WordChunk" (fst p) (snd p))
           (filter (fun p => scores (fst p) (snd p))
                   (list_prod
                      (filter (fun chunk =>
                                 (1 <? List.length (PyStr.split_space chunk))%nat)
                              (noun_chunks (nlp self) doc))
                      (proper_stock_names self))).
Proof.
  intros self tweet doc scores. subst doc scores.
  rewrite analyze_tweet_emits, chunk_hits_multiword.
  f_equal; [| f_equal].
  - exact (flat_map_pairs
             (fun token symbol => above_threshold (similarity (nlp self) symbol token))
             (symbol_mention self) _ _).
  - exact (flat_map_pairs
             (fun token name => above_threshold (similarity (nlp self) token name))
             (name_mention self "NameToken") _ _).
  - exact (flat_map_pairs
             (fun chunk name => above_threshold (similarity (nlp self) chunk name))
             (name_mention self "WordChunk") _ _).
Qed.

(** X2. The mentions come pass by pass: first all those with a
    [SymbolToken], then all those with a [NameToken], then all those with a
    [WordChunk]. *)
Theorem mentions_pass_by_pass :
  forall (self : SMTPStockEmailOutlet) (tweet : string),
  exists first second third : list Mention,
    _analyze_tweet self tweet = first ++ second ++ third /\
    Forall (fun m => strategy_of m = Some TOKEN_VS_SYMBOL) first /\
    Forall (fun m => strategy_of m = Some TOKEN_VS_NAME) second /\
    Forall (fun m => strategy_of m = Some PHRASE_VS_NAME) third.
Proof.
  intros self tweet. rewrite analyze_tweet_emits.
  do 3 eexists. split; [reflexivity |].
  repeat split; apply Forall_forall; intros m Hin;
    apply in_flat_map in Hin as (text & _ & Hin).
  - apply in_symbol_hits in Hin as (symbol & _ & _ & ->). reflexivity.
  - apply in_name_hits in Hin as (name & _ & _ & ->). reflexivity.
  - unfold chunk_hits in Hin. destruct (1 <? _)%nat; [| destruct Hin].
    apply in_name_hits in Hin as (name & _ & _ & ->). reflexivity.
Qed.

Lemma length_flat_map_le {A B : Type} (f : A -> list B) (bound : nat) xs :
  (forall x, List.length (f x) <= bound)%nat ->
  (List.length (flat_map f xs) <= List.length xs * bound)%nat.
Proof.
  intros Hf. induction xs as [|x xs IH]; [apply Nat.le_refl |].
  simpl. rewrite length_app. specialize (Hf x). lia.
Qed.

Lemma length_name_hits self key text :
  (List.length (name_hits self key text) <= List.length (proper_stock_names self))%nat.
Proof.
  unfold name_hits.
  rewrite <- (Nat.mul_1_r (List.length (proper_stock_names self))).
  apply length_flat_map_le. intros name.
  destruct (above_threshold _); simpl; lia.
Qed.

Lemma length_symbol_hits self token :
  (List.length (symbol_hits self token) <= List.length (symbols self))%nat.
Proof.
  unfold symbol_hits.
  rewrite <- (Nat.mul_1_r (List.length (symbols self))).
  apply length_flat_map_le. intros symbol.
  destruct (above_threshold _); simpl; lia.
Qed.

(** X3. There are at most as many mentions as pairs compared: tokens of
    the first pass times symbols, plus document tokens times names, plus
    noun chunks times names.  In particular an outlet without symbols and
    names reports nothing. *)
Theorem mentions_at_most_pairs :
  forall (self : SMTPStockEmailOutlet) (tweet : string),
    let doc := strip_punctuation tweet in
    (List.length (_analyze_tweet self tweet)
     <= List.length (tweet_tokens (nlp self) doc) * List.length (symbols self)
        + List.length (tokens (nlp self) doc) * List.length (proper_stock_names self)
        + List.length (noun_chunks (nlp self) doc) * List.length (proper_stock_names self))%nat.
Proof.
  intros self tweet doc. subst doc.
  rewrite analyze_tweet_emits, !length_app.
  pose proof (length_flat_map_le (symbol_hits self) _
                (tweet_tokens (nlp self) (strip_punctuation tweet))
                (length_symbol_hits self)) as Hfirst.
  pose proof (length_flat_map_le (name_hits self "NameToken") _
                (tokens (nlp self) (strip_punctuation tweet))
                (length_name_hits self "NameToken")) as Hsecond.
  assert (Hchunk : forall chunk,
             (List.length (chunk_hits self chunk)
              <= List.length (proper_stock_names self))%nat).
  { intros chunk. unfold chunk_hits.
    destruct (1 <? _)%nat; [apply length_name_hits | simpl; lia]. }
  pose proof (length_flat_map_le (chunk_hits self) _
                (noun_chunks (nlp self) (strip_punctuation tweet)) Hchunk) as Hthird.
  lia.
Qed.

(** *** What a matched text looks like *)

Lemma split_space_pieces_nonempty s : PyStr.split_space s <> [].
Proof.
  destruct s as [|c s]; simpl; [discriminate |].
  destruct (Ascii.eqb c " "%char); [discriminate |].
  destruct (PyStr.split_space s); discriminate.
Qed.

(** A text without a space is its own single piece. *)
Lemma split_space_single s :
  ~ In " "%char (PyStr.chars s) -> PyStr.split_space s = [s].
Proof.
  induction s as [|c s IH]; intros Hfree; [reflexivity |].
  simpl in *.
  destruct (Ascii.eqb_spec c " "%char) as [-> | _]; [tauto |].
  rewrite IH by tauto. reflexivity.
Qed.

(** No piece of a split has a space. *)
Lemma split_space_pieces_spaceless s piece :
  In piece (PyStr.split_space s) -> ~ In " "%char (PyStr.chars piece).
Proof.
  revert piece.
  induction s as [|c s IH]; intros piece Hpiece; simpl in Hpiece.
  - destruct Hpiece as [<- | []]. intros [].
  - destruct (Ascii.eqb_spec c " "%char) as [-> | Hc].
    + destruct Hpiece as [<- | Hpiece]; [intros [] | now apply IH].
    + destruct (PyStr.split_space s) as [|first rest].
      * destruct Hpiece as [<- | []]. simpl. intuition congruence.
      * destruct Hpiece as [<- | Hpiece].
        -- simpl. intros [Heq | Hin]; [congruence |].
           apply (IH first); [now left | assumption].
        -- apply IH. now right.
Qed.

(** X4. A mention of the third pass is never about a single word: its
    [WordChunk] is a noun chunk of the document that contains a space. *)
Theorem word_chunk_has_a_space :
  forall (self : SMTPStockEmailOutlet) (tweet : string) (m : Mention),
    In m (_analyze_tweet self tweet) ->
    strategy_of m = Some PHRASE_VS_NAME ->
    exists chunk : string,
      matched_text m = Some chunk /\
      In chunk (noun_chunks (nlp self) (strip_punctuation tweet)) /\
      In " "%char (PyStr.chars chunk).
Proof.
  intros self tweet m Hin Hst.
  apply analyze_tweet_origin in Hin.
  destruct Hin as [token symbol _ _ _ -> | token name _ _ _ ->
                  | chunk name Hchunk Hlen _ _ ->];
    try discriminate Hst.
  exists chunk. split; [reflexivity |]. split; [assumption |].
  destruct (in_dec Ascii.ascii_dec " "%char (PyStr.chars chunk)) as [Hin | Hfree];
    [assumption |].
  rewrite (split_space_single _ Hfree) in Hlen. simpl in Hlen. lia.
Qed.

Lemma word_chunk_has_a_space_witness :
  exists chunk : string,
    matched_text Examples.same_name_mention = Some chunk /\
    In chunk (noun_chunks Examples.chunking_language (strip_punctuation "Apple, Inc.")) /\
    In " "%char (PyStr.chars chunk).
Proof.
  apply (word_chunk_has_a_space
           (Examples.same_name_outlet Examples.chunking_language)
           "Apple, Inc." Examples.same_name_mention).
  - vm_compute. left. reflexivity.
  - reflexivity.
Defined.

(** X5. The [SymbolToken] of a mention of the first pass is not a stopword
    and has no space and no character of [string.punctuation] (so no
    hyphen either). *)
Theorem symbol_token_is_a_plain_word :
  forall (self : SMTPStockEmailOutlet) (tweet : string) (m : Mention),
    In m (_analyze_tweet self tweet) ->
    strategy_of m = Some TOKEN_VS_SYMBOL ->
    exists token : string,
      matched_text m = Some token /\
      ~ In token (stop_words (nlp self)) /\
      forall c : ascii,
        In c (PyStr.chars token) ->
        c <> " "%char /\ PyStr.contains string_punctuation c = false.
Proof.
  intros self tweet m Hin Hst.
  apply analyze_tweet_origin in Hin.
  destruct Hin as [token symbol Htoken _ _ -> | token name _ _ _ ->
                  | chunk name _ _ _ _ ->];
    try discriminate Hst.
  exists token. split; [reflexivity |].
  unfold tweet_tokens in Htoken.
  apply filter_In in Htoken as [Hpiece Hstop].
  split.
  - intros Hmem. apply mem_In in Hmem. rewrite Hmem in Hstop. discriminate Hstop.
  - intros c Hc. split.
    + intros ->. exact (split_space_pieces_spaceless _ _ Hpiece Hc).
    + pose proof (split_space_chars _ _ _ Hpiece Hc) as Hkept.
      unfold strip_punctuation in Hkept.
      rewrite translate_delete_chars in Hkept.
      apply filter_In in Hkept as [_ Hkept].
      now apply negb_true_iff in Hkept.
Qed.

Lemma symbol_token_is_a_plain_word_witness :
  exists token : string,
    matched_text Examples.aapl_mention = Some token /\
    ~ In token (stop_words Examples.plain_language) /\
    forall c : ascii,
      In c (PyStr.chars token) ->
      c <> " "%char /\ PyStr.contains string_punctuation c = false.
Proof.
  apply (symbol_token_is_a_plain_word
           (Examples.aapl_outlet Examples.plain_language)
           "$AAPL, is up!" Examples.aapl_mention).
  - vm_compute. left. reflexivity.
  - reflexivity.
Defined.

(** *** Punctuation in the message *)

Lemma translate_delete_app deletechars a b :
  PyStr.translate_delete deletechars (a ++ b) =
  (PyStr.translate_delete deletechars a ++ PyStr.translate_delete deletechars b)%string.
Proof.
  induction a as [|c a IH]; [reflexivity |].
  simpl. destruct (PyStr.contains deletechars c); simpl; now rewrite IH.
Qed.

Lemma translate_delete_all deletechars p :
  (forall c, In c (PyStr.chars p) -> PyStr.contains deletechars c = true) ->
  PyStr.translate_delete deletechars p = EmptyString.
Proof.
  induction p as [|c p IH]; intros Hall; [reflexivity |].
  simpl. rewrite (Hall c) by now left.
  apply IH. intros d Hd. apply Hall. now right.
Qed.

Lemma translate_delete_idempotent deletechars s :
  PyStr.translate_delete deletechars (PyStr.translate_delete deletechars s) =
  PyStr.translate_delete deletechars s.
Proof.
  apply translate_delete_absent. intros c Hc.
  rewrite translate_delete_chars in Hc.
  apply filter_In in Hc as [_ Hc]. now apply negb_true_iff in Hc.
Qed.

(** X6. Punctuation does not count: a run of [string.punctuation] characters
    put anywhere into a message changes nothing in the mentions found. *)
Theorem punctuation_changes_nothing :
  forall (self : SMTPStockEmailOutlet) (before marks rest : string),
    (forall c : ascii,
        In c (PyStr.chars marks) -> PyStr.contains string_punctuation c = true) ->
    _analyze_tweet self (before ++ marks ++ rest) =
    _analyze_tweet self (before ++ rest).
Proof.
  intros self before marks rest Hmarks.
  assert (Hsame : strip_punctuation (before ++ marks ++ rest) =
                  strip_punctuation (before ++ rest)).
  { unfold strip_punctuation.
    rewrite !translate_delete_app, (translate_delete_all _ marks Hmarks).
    reflexivity. }
  unfold _analyze_tweet. now rewrite Hsame.
Qed.

Lemma punctuation_changes_nothing_witness :
  _analyze_tweet (Examples.aapl_outlet Examples.plain_language)
                 ("AAPL" ++ "!?" ++ " is up")
  = _analyze_tweet (Examples.aapl_outlet Examples.plain_language)
                   ("AAPL" ++ " is up").
Proof.
  apply (punctuation_changes_nothing
           (Examples.aapl_outlet Examples.plain_language) "AAPL" "!?" " is up").
  intros c [<- | [<- | []]]; reflexivity.
Defined.

(** X7. Line 115 deletes the characters of [string.punctuation] and nothing
    else: what is left are the other characters of the message, in their
    order; doing it again changes nothing. *)
Theorem strip_punctuation_keeps_the_rest :
  forall tweet : string,
    PyStr.chars (strip_punctuation tweet) =
    filter (fun c => negb (PyStr.contains string_punctuation c)) (PyStr.chars tweet) /\
    strip_punctuation (strip_punctuation tweet) = strip_punctuation tweet.
Proof.
  intros tweet. split.
  - apply translate_delete_chars.
  - apply translate_delete_idempotent.
Qed.

(** Two spaces in a row leave an empty piece after the first piece. *)
Lemma split_space_empty_piece a b :
  exists first rest,
    PyStr.split_space (a ++ String " " (String " " b)) = first :: rest /\
    In EmptyString rest.
Proof.
  induction a as [|c a (first & rest & Hsplit & Hin)].
  - simpl. exists EmptyString, (EmptyString :: PyStr.split_space b).
    split; [reflexivity | now left].
  - simpl. rewrite Hsplit.
    destruct (Ascii.eqb c " "%char).
    + exists EmptyString, (first :: rest). split; [reflexivity | now right].
    + exists (String c first), rest. split; [reflexivity | assumption].
Qed.

(** X8. Punctuation that stands alone between two spaces leaves an empty
    token: unless the empty string is a stopword, the first pass compares
    it with every symbol. *)
Theorem lone_punctuation_leaves_an_empty_token :
  forall (lang : Language) (before marks rest : string),
    (forall c : ascii,
        In c (PyStr.chars marks) -> PyStr.contains string_punctuation c = true) ->
    PyStr.mem EmptyString (stop_words lang) = false ->
    In EmptyString
       (tweet_tokens lang
          (strip_punctuation (before ++ " " ++ marks ++ " " ++ rest))).
Proof.
  intros lang before marks rest Hmarks Hstop.
  unfold strip_punctuation.
  rewrite !translate_delete_app, (translate_delete_all _ marks Hmarks).
  change (PyStr.translate_delete string_punctuation " ") with " ".
  cbn [String.append].
  destruct (split_space_empty_piece
              (PyStr.translate_delete string_punctuation before)
              (PyStr.translate_delete string_punctuation rest))
    as (first & pieces & Hsplit & Hin).
  unfold tweet_tokens. apply filter_In. split.
  - rewrite Hsplit. now right.
  - now rewrite Hstop.
Qed.

Lemma lone_punctuation_leaves_an_empty_token_witness :
  In EmptyString
     (tweet_tokens Examples.plain_language
        (strip_punctuation ("AAPL" ++ " " ++ "-" ++ " " ++ "up 3%"))).
Proof.
  apply (lone_punctuation_leaves_an_empty_token
           Examples.plain_language "AAPL" "-" "up 3%").
  - intros c [<- | []]. reflexivity.
  - reflexivity.
Defined.

(** *** Mentions and the records of the catalog *)

(** X9. When the sets of the outlet hold fields of its records, and no two
    records share a symbol or a name, every mention names one instrument:
    its [Symbol] and its [ProperName] are those of one record. *)
Theorem mention_names_one_record :
  forall (self : SMTPStockEmailOutlet) (tweet : string) (m : Mention),
    sets_from_records self ->
    NoDup (map Symbol (stock_data self)) ->
    NoDup (map Name (stock_data self)) ->
    In m (_analyze_tweet self tweet) ->
    exists stock : Stock,
      In stock (stock_data self) /\
      dict_get m "Symbol" = Some (PyString (Symbol stock)) /\
      dict_get m "ProperName" = Some (PyString (Name stock)).
Proof.
  intros self tweet m [Hsymbols Hnames] Hnodup_s Hnodup_n Hin.
  apply analyze_tweet_origin in Hin.
  destruct Hin as [token symbol _ Hsymbol _ -> | token name _ Hname _ ->
                  | chunk name _ _ Hname _ ->].
  - apply Hsymbols, in_map_iff in Hsymbol as (stock & <- & Hstock).
    exists stock. split; [assumption |]. split; [reflexivity |].
    cbn. rewrite proper_name_of_carrying, names_carrying_unique by assumption.
    reflexivity.
  - apply Hnames, in_map_iff in Hname as (stock & <- & Hstock).
    exists stock. split; [assumption |].
    cbn. rewrite symbol_of_bearing, symbols_bearing_unique by assumption.
    split; reflexivity.
  - apply Hnames, in_map_iff in Hname as (stock & <- & Hstock).
    exists stock. split; [assumption |].
    cbn. rewrite symbol_of_bearing, symbols_bearing_unique by assumption.
    split; reflexivity.
Qed.

Lemma mention_names_one_record_witness :
  exists stock : Stock,
    In stock [Examples.aapl] /\
    dict_get Examples.aapl_mention "Symbol" = Some (PyString (Symbol stock)) /\
    dict_get Examples.aapl_mention "ProperName" = Some (PyString (Name stock)).
Proof.
  apply (mention_names_one_record
           (Examples.aapl_outlet Examples.plain_language)
           "AAPL is up today" Examples.aapl_mention).
  - split; intros x [<- | []]; now left.
  - constructor; [intros [] | constructor].
  - constructor; [intros [] | constructor].
  - vm_compute. left. reflexivity.
Defined.

(** *** The order of the sets *)

Lemma flat_map_permutation {A B : Type} (f g : A -> list B) xs :
  (forall x, Permutation (f x) (g x)) ->
  Permutation (flat_map f xs) (flat_map g xs).
Proof.
  intros Hfg. induction xs as [|x xs IH]; [constructor |].
  simpl. now apply Permutation_app.
Qed.

(** X19. The order in which the two sets iterate changes the order of the
    mentions and nothing else: two outlets over the same records and the
    same pipeline, whose sets hold the same elements, find the same
    mentions, each as often. *)
Theorem set_order_permutes_mentions :
  forall (first second : SMTPStockEmailOutlet) (tweet : string),
    stock_data first = stock_data second ->
    nlp first = nlp second ->
    Permutation (symbols first) (symbols second) ->
    Permutation (proper_stock_names first) (proper_stock_names second) ->
    Permutation (_analyze_tweet first tweet) (_analyze_tweet second tweet).
Proof.
  intros a b tweet Hdata Hnlp Hsymbols Hnames.
  rewrite !analyze_tweet_emits, <- Hnlp.
  assert (Hname_hits : forall key text,
             Permutation (name_hits a key text) (name_hits b key text)).
  { intros key text. unfold name_hits, name_mention. rewrite <- Hnlp, <- Hdata.
    now apply Permutation_flat_map. }
  repeat apply Permutation_app; apply flat_map_permutation; intros text.
  - unfold symbol_hits, symbol_mention. rewrite <- Hnlp, <- Hdata.
    now apply Permutation_flat_map.
  - apply Hname_hits.
  - unfold chunk_hits. destruct (1 <? _)%nat; [apply Hname_hits | constructor].
Qed.

Lemma set_order_permutes_mentions_witness :
  Permutation
    (_analyze_tweet (Examples.same_name_outlet Examples.credulous_language) "up 3%")
    (_analyze_tweet (Examples.same_name_outlet_rev Examples.credulous_language) "up 3%").
Proof.
  apply (set_order_permutes_mentions
           (Examples.same_name_outlet Examples.credulous_language)
           (Examples.same_name_outlet_rev Examples.credulous_language) "up 3%").
  - reflexivity.
  - reflexivity.
  - apply perm_swap.
  - apply Permutation_refl.
Defined.

(** ** Further properties of the loading *)

Module LoaderOrder.
Import Loader.

Section Placement.
Variable set_place : json -> list json -> list json.

(** The loop over the entries raises the exception of the first entry
    whose field cannot be read into the set, and returns when there is
    none. *)
Lemma collect_first_error key entries :
  forall found,
    match first_error key entries with
    | Some e =>
        for_each_m entries
          (fun entry found => v <- getitem entry key ;; set_add set_place v found)
          found = inl e
    | None =>
        exists found',
          for_each_m entries
            (fun entry found => v <- getitem entry key ;; set_add set_place v found)
            found = inr found'
    end.
Proof.
  induction entries as [|entry rest IH]; intros found.
  - exists found. reflexivity.
  - cbn [first_error for_each_m]. unfold field_error, set_add.
    destruct (getitem entry key) as [e | v]; cbn [bind]; [reflexivity |].
    destruct (hashable v); cbn [bind ret raise]; [apply IH | reflexivity].
Qed.

End Placement.

Lemma existsb_permutation {A : Type} (p : A -> bool) xs ys :
  Permutation xs ys -> existsb p xs = existsb p ys.
Proof.
  induction 1 as [| x xs ys _ IH | x y xs | xs ys zs _ IH1 _ IH2]; simpl.
  - reflexivity.
  - now rewrite IH.
  - destruct (p x), (p y); reflexivity.
  - now rewrite IH1.
Qed.

Section TwoPlacements.
Variables place1 place2 : json -> list json -> list json.
Hypothesis permutes1 : forall v s, Permutation (place1 v s) (v :: s).
Hypothesis permutes2 : forall v s, Permutation (place2 v s) (v :: s).

(** Two sets that place their elements differently go through the loop
    alike: the same exception, or the same elements. *)
Lemma collect_loop_permutation key entries :
  forall found1 found2,
    Permutation found1 found2 ->
    match for_each_m entries
            (fun entry found => v <- getitem entry key ;; set_add place1 v found)
            found1,
          for_each_m entries
            (fun entry found => v <- getitem entry key ;; set_add place2 v found)
            found2 with
    | inl e1, inl e2 => e1 = e2
    | inr set1, inr set2 => Permutation set1 set2
    | _, _ => False
    end.
Proof.
  induction entries as [|entry rest IH]; intros found1 found2 Hperm.
  - exact Hperm.
  - cbn [for_each_m]. unfold set_add.
    destruct (getitem entry key) as [e | v]; cbn [bind]; [reflexivity |].
    destruct (hashable v); cbn [bind ret raise]; [| reflexivity].
    rewrite (existsb_permutation _ _ _ Hperm).
    destruct (existsb (py_eq v) found2).
    + now apply IH.
    + apply IH.
      rewrite permutes1, permutes2. now constructor.
Qed.

End TwoPlacements.

End LoaderOrder.

(** X10. Which exception the loading raises: over a source that is a
    collection, the one of the first entry whose [Symbol] is missing or
    cannot go into a set; when all symbols are fine, the one of the first
    entry whose [Name] is missing or cannot go into a set; and none when all
    names are fine too.  So a record without a symbol at the end of the file
    is reported before a record without a name at its start. *)
Theorem load_raises_first_symbol_error :
  forall (read_file : string -> option string)
         (json_loads : string -> option Loader.json)
         (set_place : Loader.json -> list Loader.json -> list Loader.json)
         (path text : string) (value : Loader.json) (entries : list Loader.json),
    read_file path = Some text ->
    json_loads text = Some value ->
    Loader.py_iter value = inr entries ->
    match first_error "Symbol" entries, first_error "Name" entries with
    | Some e, _ =>
        Loader.init_catalog read_file json_loads set_place path = inl e
    | None, Some e =>
        Loader.init_catalog read_file json_loads set_place path = inl e
    | None, None =>
        exists catalog,
          Loader.init_catalog read_file json_loads set_place path = inr catalog /\
          Loader.stock_data catalog = value
    end.
Proof.
  intros read_file json_loads set_place path text value entries Hfile Hjson Hiter.
  unfold Loader.init_catalog, Loader._load_data.
  rewrite Hfile, Hjson. cbn [Loader.bind Loader.ret].
  unfold Loader._get_symbols, Loader._get_stock_proper_name.
  rewrite Hiter. cbn [Loader.bind].
  pose proof (LoaderOrder.collect_first_error set_place "Symbol" entries []) as Hsymbols.
  pose proof (LoaderOrder.collect_first_error set_place "Name" entries []) as Hnames.
  destruct (first_error "Symbol" entries) as [e |].
  - now rewrite Hsymbols.
  - destruct Hsymbols as (found_symbols & ->). cbn [Loader.bind].
    destruct (first_error "Name" entries) as [e |].
    + now rewrite Hnames.
    + destruct Hnames as (found_names & ->). cbn [Loader.bind Loader.ret].
      eexists. split; reflexivity.
Qed.

Lemma load_raises_first_symbol_error_witness :
  Loader.init_catalog (Sources.one_file "nameless then symbolless")
    (fun _ => Some (Loader.JArray
                      [ Loader.JObject [("Symbol", Loader.JString "GOOG")];
                        Loader.JObject [("Name", Loader.JString "Apple Inc")] ]))
    Sources.place_last Sources.datapath
  = inl (Loader.KeyError "Symbol").
Proof.
  apply (load_raises_first_symbol_error
           (Sources.one_file "nameless then symbolless")
           (fun _ => Some (Loader.JArray
                             [ Loader.JObject [("Symbol", Loader.JString "GOOG")];
                               Loader.JObject [("Name", Loader.JString "Apple Inc")] ]))
           Sources.place_last Sources.datapath "nameless then symbolless"
           (Loader.JArray
              [ Loader.JObject [("Symbol", Loader.JString "GOOG")];
                Loader.JObject [("Name", Loader.JString "Apple Inc")] ])
           [ Loader.JObject [("Symbol", Loader.JString "GOOG")];
             Loader.JObject [("Name", Loader.JString "Apple Inc")] ]).
  - reflexivity.
  - reflexivity.
  - reflexivity.
Defined.

(** X11. The order in which the sets iterate does not change what the
    loading does: with two placements of new set elements, it raises the
    same exception, or it returns two catalogs over the same source whose
    sets hold the same elements. *)
Theorem load_up_to_set_order :
  forall (read_file : string -> option string)
         (json_loads : string -> option Loader.json)
         (place1 place2 : Loader.json -> list Loader.json -> list Loader.json)
         (path : string),
    (forall v s, Permutation (place1 v s) (v :: s)) ->
    (forall v s, Permutation (place2 v s) (v :: s)) ->
    match Loader.init_catalog read_file json_loads place1 path,
          Loader.init_catalog read_file json_loads place2 path with
    | inl e1, inl e2 => e1 = e2
    | inr catalog1, inr catalog2 =>
        Loader.stock_data catalog1 = Loader.stock_data catalog2 /\
        Permutation (Loader.symbols catalog1) (Loader.symbols catalog2) /\
        Permutation (Loader.proper_stock_names catalog1)
                    (Loader.proper_stock_names catalog2)
    | _, _ => False
    end.
Proof.
  intros read_file json_loads place1 place2 path Hplace1 Hplace2.
  unfold Loader.init_catalog, Loader._load_data.
  destruct (read_file path) as [text |]; [| reflexivity].
  destruct (json_loads text) as [value |]; [| reflexivity].
  cbn [Loader.bind Loader.ret].
  unfold Loader._get_symbols, Loader._get_stock_proper_name.
  destruct (Loader.py_iter value) as [e | entries]; [reflexivity |].
  cbn [Loader.bind].
  pose proof (LoaderOrder.collect_loop_permutation place1 place2 Hplace1 Hplace2
                "Symbol" entries [] [] (Permutation_refl _)) as Hsymbols.
  pose proof (LoaderOrder.collect_loop_permutation place1 place2 Hplace1 Hplace2
                "Name" entries [] [] (Permutation_refl _)) as Hnames.
  destruct (Loader.for_each_m entries _ []) as [e1 | symbols1] in Hsymbols |- *;
    destruct (Loader.for_each_m entries _ []) as [e2 | symbols2] in Hsymbols |- *;
    try contradiction; cbn [Loader.bind]; [exact Hsymbols |].
  destruct (Loader.for_each_m entries _ []) as [e1 | names1] in Hnames |- *;
    destruct (Loader.for_each_m entries _ []) as [e2 | names2] in Hnames |- *;
    try contradiction; cbn [Loader.bind Loader.ret]; [exact Hnames |].
  cbn [Loader.stock_data Loader.symbols Loader.proper_stock_names]. auto.
Qed.

Lemma load_up_to_set_order_witness :
  match Loader.init_catalog (Sources.one_file "aapl") Sources.parser
          Sources.place_last Sources.datapath,
        Loader.init_catalog (Sources.one_file "aapl") Sources.parser
          (fun v s => v :: s) Sources.datapath with
  | inl e1, inl e2 => e1 = e2
  | inr catalog1, inr catalog2 =>
      Loader.stock_data catalog1 = Loader.stock_data catalog2 /\
      Permutation (Loader.symbols catalog1) (Loader.symbols catalog2) /\
      Permutation (Loader.proper_stock_names catalog1)
                  (Loader.proper_stock_names catalog2)
  | _, _ => False
  end.
Proof.
  apply (load_up_to_set_order (Sources.one_file "aapl") Sources.parser
           Sources.place_last (fun v s => v :: s) Sources.datapath).
  - intros v s. unfold Sources.place_last.
    apply Permutation_sym, Permutation_cons_append.
  - intros v s. apply Permutation_refl.
Defined.

(** A source that gave a catalog is not a bad one. *)
Lemma loaded_source_is_good read_file json_loads set_place path catalog :
  Loader.init_catalog read_file json_loads set_place path = inr catalog ->
  ~ Loader.bad_source read_file json_loads path.
Proof.
  intros Hinit Hbad.
  pose proof (LoaderFacts.init_catalog_outcome read_file json_loads set_place path)
    as Hout.
  rewrite Hinit in Hout.
  destruct Hout as (text & entries & Hfile & Hjson & Hiter & Hfields).
  destruct Hbad as [Hmissing | text' Hfile' Hjson' | text' value Hfile' Hjson' Hiter'
                   | text' value entries' entry Hfile' Hjson' Hiter' Hin Hrecord
                   | text' value entries' entry key Hfile' Hjson' Hiter' Hin Hkey Hhash];
    try congruence.
  - assert (entries' = entries) as -> by congruence.
    destruct (Hfields entry Hin) as [Hsymbol Hname].
    apply LoaderFacts.usable_field_complete in Hsymbol, Hname.
    unfold Loader.complete_record in Hrecord.
    rewrite Hsymbol, Hname in Hrecord. discriminate Hrecord.
  - assert (entries' = entries) as -> by congruence.
    destruct (Hfields entry Hin) as [Hsymbol Hname].
    pose proof (LoaderFacts.unusable_field_inv entry key (or_intror Hhash))
      as Hunusable.
    destruct Hkey as [-> | ->]; congruence.
Qed.

(** X12. The loading returns a catalog exactly when the source is not a bad
    one (missing, not JSON, not a collection, or with an entry without a
    usable [Symbol] and [Name]); it never does both, and it never does
    neither. *)
Theorem load_returns_iff_source_is_good :
  forall (read_file : string -> option string)
         (json_loads : string -> option Loader.json)
         (set_place : Loader.json -> list Loader.json -> list Loader.json)
         (path : string),
    (exists catalog,
        Loader.init_catalog read_file json_loads set_place path = inr catalog)
    <-> ~ Loader.bad_source read_file json_loads path.
Proof.
  intros read_file json_loads set_place path. split.
  - intros (catalog & Hinit). eapply loaded_source_is_good, Hinit.
  - intros Hgood.
    destruct (Loader.init_catalog read_file json_loads set_place path)
      as [e | catalog] eqn:Hinit.
    + exfalso. apply Hgood.
      eapply load_raises_only_on_bad_source, Hinit.
    + now exists catalog.
Qed.

(** The fields of records that read as instruments. *)
Lemma stocks_fields records :
  forall stocks,
    all_of (map Loader.stock_of records) = Some stocks ->
    Forall2 (fun entry stock =>
               Loader.getitem entry "Symbol" = inr (Loader.JString (Symbol stock)) /\
               Loader.getitem entry "Name" = inr (Loader.JString (Name stock)))
            records stocks.
Proof.
  induction records as [|entry rest IH]; intros stocks.
  - intros [= <-]. constructor.
  - cbn [map all_of]. unfold Loader.stock_of at 1.
    destruct (Loader.getitem entry "Symbol") as [e | [| | | symbol | |]] eqn:Hsymbol;
      try discriminate.
    destruct (Loader.getitem entry "Name") as [e | [| | | name | |]] eqn:Hname;
      try discriminate.
    destruct (all_of (map Loader.stock_of rest)) as [found |]; [| discriminate].
    intros [= <-]. constructor; [split; assumption | now apply IH].
Qed.

Section StringFields.
Variable set_place : Loader.json -> list Loader.json -> list Loader.json.
Hypothesis place_permutes : forall v s, Permutation (set_place v s) (v :: s).

(** Collecting a string field of such records into a set: the loop returns,
    and the set holds each value of the field once. *)
Lemma collect_string_field (key : string) (field : Stock -> string) records stocks :
  Forall2 (fun entry stock =>
             Loader.getitem entry key = inr (Loader.JString (field stock)))
          records stocks ->
  forall found,
    NoDup found ->
    exists found',
      Loader.for_each_m records
        (fun entry found =>
           Loader.bind (Loader.getitem entry key)
                       (fun v => Loader.set_add set_place v found))
        (map Loader.JString found)
      = inr (map Loader.JString found') /\
      NoDup found' /\
      forall text, In text found' <-> In text found \/ In text (map field stocks).
Proof.
  induction 1 as [| entry stock records stocks Hentry _ IH]; intros found Hnodup.
  - exists found. simpl. repeat split; tauto.
  - cbn [map Loader.for_each_m]. rewrite Hentry.
    unfold Loader.bind at 2. unfold Loader.set_add. cbn [Loader.hashable].
    rewrite existsb_py_eq_strings.
    destruct (PyStr.mem (field stock) found) eqn:Hmem.
    + apply mem_In in Hmem.
      destruct (IH found Hnodup) as (found' & Hrun & Hnodup' & Hiff).
      exists found'. cbn [Loader.ret Loader.bind].
      split; [exact Hrun |]. split; [exact Hnodup' |].
      intros text. rewrite Hiff. simpl. intuition (subst; auto).
    + assert (Hfresh : ~ In (field stock) found).
      { intros Hin. apply mem_In in Hin. congruence. }
      pose proof (place_permutes (Loader.JString (field stock))
                                 (map Loader.JString found)) as Hperm.
      change (Loader.JString (field stock) :: map Loader.JString found)
        with (map Loader.JString (field stock :: found)) in Hperm.
      apply Permutation_map_inv in Hperm as (placed & Hplaced & Hperm).
      assert (Hnodup' : NoDup placed).
      { eapply Permutation_NoDup; [exact Hperm |]. now constructor. }
      destruct (IH placed Hnodup') as (found' & Hrun & Hnodup'' & Hiff).
      exists found'. cbn [Loader.ret Loader.bind]. rewrite Hplaced.
      split; [exact Hrun |]. split; [exact Hnodup'' |].
      intros text. rewrite Hiff. simpl.
      split.
      * intros [Hin | Hin]; [| tauto].
        apply Permutation_sym in Hperm.
        apply (Permutation_in _ Hperm) in Hin. simpl in Hin. tauto.
      * intros [Hin | [Heq | Hin]]; [left | left | tauto].
        -- apply (Permutation_in _ Hperm). now right.
        -- apply (Permutation_in _ Hperm). now left.
Qed.

End StringFields.

(** X13. A source that is a list of records with a string [Symbol] and a
    string [Name] (in any key order, with or without other members) always
    loads, whatever the order of its sets: the outlet holds the records in
    file order, its two sets hold nothing but fields of these records, each
    symbol and each name of the file is in its set, and none is there
    twice. *)
Theorem well_formed_source_loads :
  forall (read_file : string -> option string)
         (json_loads : string -> option Loader.json)
         (set_place : Loader.json -> list Loader.json -> list Loader.json)
         (path text : string) (records : list Loader.json)
         (stocks : list Stock) (lang : Language),
    (forall v s, Permutation (set_place v s) (v :: s)) ->
    read_file path = Some text ->
    json_loads text = Some (Loader.JArray records) ->
    all_of (map Loader.stock_of records) = Some stocks ->
    exists catalog outlet,
      Loader.init_catalog read_file json_loads set_place path = inr catalog /\
      outlet_of catalog lang = Some outlet /\
      stock_data outlet = stocks /\
      sets_from_records outlet /\
      incl (map Symbol stocks) (symbols outlet) /\
      incl (map Name stocks) (proper_stock_names outlet) /\
      NoDup (symbols outlet) /\
      NoDup (proper_stock_names outlet).
Proof.
  intros read_file json_loads set_place path text records stocks lang
         Hplace Hfile Hjson Hstocks.
  pose proof (stocks_fields records stocks Hstocks) as Hfields.
  destruct (collect_string_field set_place Hplace "Symbol" Symbol records stocks
              (Forall2_impl _ (fun _ _ H => proj1 H) Hfields) [] (NoDup_nil _))
    as (found_symbols & Hsymbols & Hnodup_s & Hiff_s).
  destruct (collect_string_field set_place Hplace "Name" Name records stocks
              (Forall2_impl _ (fun _ _ H => proj2 H) Hfields) [] (NoDup_nil _))
    as (found_names & Hnames & Hnodup_n & Hiff_n).
  eexists. eexists.
  unfold Loader.init_catalog, Loader._load_data. rewrite Hfile, Hjson.
  cbn [Loader.bind Loader.ret].
  unfold Loader._get_symbols, Loader._get_stock_proper_name.
  cbn [Loader.py_iter Loader.bind Loader.ret].
  change (@nil Loader.json) with (map Loader.JString []).
  rewrite Hsymbols, Hnames. cbn [Loader.bind Loader.ret].
  split; [reflexivity |].
  unfold outlet_of. cbn [Loader.stock_data Loader.symbols Loader.proper_stock_names].
  rewrite Hstocks, !all_of_strings.
  split; [reflexivity |].
  cbn [stock_data symbols proper_stock_names nlp].
  split; [reflexivity |].
  split.
  - unfold sets_from_records. cbn [stock_data symbols proper_stock_names].
    split; intros x Hx; [apply Hiff_s in Hx | apply Hiff_n in Hx];
      simpl in Hx; tauto.
  - split; [intros x Hx; apply Hiff_s; now right |].
    split; [intros x Hx; apply Hiff_n; now right |].
    split; assumption.
Qed.

Lemma well_formed_source_loads_witness :
  exists catalog outlet,
    Loader.init_catalog (Sources.one_file "with sector") MoreSources.parser
                        Sources.place_last Sources.datapath = inr catalog /\
    outlet_of catalog Examples.plain_language = Some outlet /\
    stock_data outlet = [Examples.aapl] /\
    sets_from_records outlet /\
    incl (map Symbol [Examples.aapl]) (symbols outlet) /\
    incl (map Name [Examples.aapl]) (proper_stock_names outlet) /\
    NoDup (symbols outlet) /\
    NoDup (proper_stock_names outlet).
Proof.
  apply (well_formed_source_loads (Sources.one_file "with sector") MoreSources.parser
           Sources.place_last Sources.datapath "with sector"
           [ Loader.JObject [ ("Name", Loader.JString "Apple Inc");
                              ("Sector", Loader.JString "Information Technology");
                              ("Symbol", Loader.JString "AAPL") ] ]
           [Examples.aapl] Examples.plain_language).
  - intros v s. unfold Sources.place_last.
    apply Permutation_sym, Permutation_cons_append.
  - reflexivity.
  - reflexivity.
  - reflexivity.
Defined.

(** ** The Twitter inlet *)

Module TwitterFacts.
Import Twitter.

Lemma since_id_of_request self :
  since_id_of (request_of self) = most_recent_id self.
Proof. unfold request_of. destruct (is_user_timeline self); reflexivity. Qed.

(** [pull] makes the one call [request_of] and raises when it does. *)
Lemma pull_raises api self :
  api (request_of self) = None -> pull api self = None.
Proof.
  unfold pull, request_of. intros Hcall.
  destruct (is_user_timeline self), (most_recent_id self); now rewrite Hcall.
Qed.

Lemma pull_returns api self statuses :
  api (request_of self) = Some statuses ->
  pull api self =
  Some (map record_of statuses,
        {| user := user self;
           most_recent_id := match statuses with
                             | newest :: _ => Some (id newest)
                             | [] => most_recent_id self
                             end;
           is_user_timeline := is_user_timeline self |}).
Proof.
  unfold pull, request_of. intros Hcall.
  destruct self as [u cursor timeline]. cbn [user most_recent_id is_user_timeline] in *.
  destruct timeline, cursor; rewrite Hcall; destruct statuses; reflexivity.
Qed.

Lemma after_raised api self :
  api (request_of self) = None -> after api self = self.
Proof. intros Hcall. unfold after. now rewrite (pull_raises _ _ Hcall). Qed.

Lemma after_returned api self statuses :
  api (request_of self) = Some statuses ->
  after api self =
  {| user := user self;
     most_recent_id := match statuses with
                       | newest :: _ => Some (id newest)
                       | [] => most_recent_id self
                       end;
     is_user_timeline := is_user_timeline self |}.
Proof. intros Hcall. unfold after. now rewrite (pull_returns _ _ _ Hcall). Qed.

(** A pull changes the cursor only. *)
Lemma after_same_timeline api self :
  user (after api self) = user self /\
  is_user_timeline (after api self) = is_user_timeline self.
Proof.
  destruct (api (request_of self)) as [statuses |] eqn:Hcall.
  - rewrite (after_returned _ _ _ Hcall). split; reflexivity.
  - rewrite (after_raised _ _ Hcall). split; reflexivity.
Qed.

Lemma after_cursor_set api self :
  most_recent_id self <> None -> most_recent_id (after api self) <> None.
Proof.
  intros Hset.
  destruct (api (request_of self)) as [statuses |] eqn:Hcall.
  - rewrite (after_returned _ _ _ Hcall). simpl.
    destruct statuses; [assumption | discriminate].
  - now rewrite (after_raised _ _ Hcall).
Qed.

(** Statuses sorted newest first have distinct ids. *)
Lemma sorted_ids_distinct statuses :
  StronglySorted (fun a b => (id b < id a)%Z) statuses -> NoDup (map id statuses).
Proof.
  induction 1 as [| newest older _ IH Holder]; simpl; constructor; [| exact IH].
  intros Hin. apply in_map_iff in Hin as (status & Heq & Hin).
  rewrite Forall_forall in Holder. specialize (Holder status Hin). lia.
Qed.

(** One pull against a client that honours [since_id] keeps the inlet up to
    date with what it was answered. *)
Lemma after_up_to_date api self seen :
  honours_since_id api ->
  up_to_date seen self ->
  up_to_date
    (seen ++ match api (request_of self) with
             | Some statuses => statuses
             | None => []
             end)
    (after api self).
Proof.
  intros Hhonours (Hnodup & Hbound & Hcursor).
  destruct (api (request_of self)) as [statuses |] eqn:Hcall.
  2:{ rewrite app_nil_r, (after_raised _ _ Hcall). now repeat split. }
  destruct (Hhonours _ _ Hcall) as [Hsorted Hsince].
  rewrite since_id_of_request in Hsince.
  rewrite (after_returned _ _ _ Hcall).
  destruct statuses as [|newest older].
  { rewrite app_nil_r. unfold up_to_date. cbn [most_recent_id]. now repeat split. }
  assert (Holder : forall status, In status (newest :: older) ->
                                  (id status <= id newest)%Z).
  { apply StronglySorted_inv in Hsorted as [_ Holder].
    rewrite Forall_forall in Holder.
    intros status [<- | Hin]; [lia |]. specialize (Holder status Hin). lia. }
  assert (Hseen : forall status, In status seen -> (id status < id newest)%Z).
  { intros status Hin.
    destruct (Hbound status Hin) as (cursor & Hset & Hle).
    specialize (Hsince cursor Hset). rewrite Forall_forall in Hsince.
    specialize (Hsince newest (or_introl eq_refl)). lia. }
  unfold up_to_date. cbn [most_recent_id].
  split; [| split].
  - rewrite map_app. apply NoDup_app; [exact Hnodup | now apply sorted_ids_distinct |].
    intros a Ha Hb.
    apply in_map_iff in Ha as (old & <- & Hold).
    apply in_map_iff in Hb as (new & Heq & Hnew).
    destruct (Hbound old Hold) as (cursor & Hset & Hle).
    specialize (Hsince cursor Hset). rewrite Forall_forall in Hsince.
    specialize (Hsince new Hnew). lia.
  - intros status Hin. exists (id newest). split; [reflexivity |].
    apply in_app_or in Hin as [Hin | Hin].
    + specialize (Hseen status Hin). lia.
    + now apply Holder.
  - intros _. exists newest. split; [| reflexivity].
    apply in_or_app. right. now left.
Qed.

(** So do pulls in a row. *)
Lemma after_all_up_to_date apis :
  Forall honours_since_id apis ->
  forall self seen,
    up_to_date seen self ->
    up_to_date (seen ++ answers apis self) (after_all apis self).
Proof.
  induction 1 as [| api rest Hapi _ IH]; intros self seen Hseen.
  - simpl. now rewrite app_nil_r.
  - pose proof (after_up_to_date api self seen Hapi Hseen) as Hstep.
    apply IH in Hstep.
    cbn [answers after_all fold_left].
    destruct (api (request_of self)) as [statuses |].
    + now rewrite app_assoc.
    + now rewrite app_nil_r in Hstep.
Qed.

Lemma nothing_seen self : up_to_date [] self.
Proof.
  repeat split; [constructor | intros status [] | intros Hne; now destruct Hne].
Qed.

(** The clients of the examples honour [since_id]. *)
Lemma filter_sorted {A : Type} (R : A -> A -> Prop) (p : A -> bool) xs :
  StronglySorted R xs -> StronglySorted R (filter p xs).
Proof.
  induction 1 as [| x xs _ IH Hx]; simpl; [constructor |].
  destruct (p x); [| exact IH].
  constructor; [exact IH |].
  rewrite Forall_forall in *. intros y Hy.
  apply filter_In in Hy as [Hy _]. now apply Hx.
Qed.

Lemma client_honours feed :
  StronglySorted (fun a b => (id b < id a)%Z) feed ->
  honours_since_id (Feed.client feed).
Proof.
  intros Hsorted r statuses Hcall. unfold Feed.client in Hcall.
  destruct (since_id_of r) as [since |].
  - injection Hcall as <-. split; [now apply filter_sorted |].
    intros since' [= <-]. apply Forall_forall. intros status Hin.
    apply filter_In in Hin as [_ Hin]. now apply Z.ltb_lt in Hin.
  - injection Hcall as <-. split; [exact Hsorted | discriminate].
Qed.

Lemma down_honours : honours_since_id Feed.down.
Proof. intros r statuses Hcall. discriminate Hcall. Qed.

Lemma feed_sorted :
  StronglySorted (fun a b => (id b < id a)%Z) Feed.early /\
  StronglySorted (fun a b => (id b < id a)%Z) Feed.late.
Proof. split; repeat constructor. Qed.

Lemma feed_honours :
  Forall honours_since_id
         [Feed.client Feed.early; Feed.down; Feed.client Feed.late].
Proof.
  constructor; [apply client_honours, feed_sorted |].
  constructor; [apply down_honours |].
  constructor; [apply client_honours, feed_sorted | constructor].
Qed.

End TwitterFacts.

(** X14. Over any number of pulls, the records handed on are the statuses
    the client answered with, each once and in the order of the answers,
    as dicts of screen name and text; a call that raises adds none and
    loses none. *)
Theorem pulled_records_are_the_answers :
  forall (apis : list Twitter.API) (self : Twitter.TwitterInlet),
    Twitter.pulled apis self =
    map Twitter.record_of (Twitter.answers apis self).
Proof.
  induction apis as [|api rest IH]; intros self; [reflexivity |].
  cbn [Twitter.pulled Twitter.answers].
  destruct (api (Twitter.request_of self)) as [statuses |] eqn:Hcall.
  - rewrite (TwitterFacts.after_returned _ _ _ Hcall),
            (TwitterFacts.pull_returns _ _ _ Hcall).
    now rewrite map_app, IH.
  - rewrite (TwitterFacts.after_raised _ _ Hcall),
            (TwitterFacts.pull_raises _ _ Hcall).
    apply IH.
Qed.

(** X15. An inlet keeps to its timeline: built with a user, every call it
    ever makes is for the timeline of this user; built without, every call
    is for the home timeline. *)
Theorem calls_keep_to_one_timeline :
  forall (apis : list Twitter.API) (user : option string) (since : option Z),
    Forall (fun r =>
              match user with
              | Some _ => exists since', r = Twitter.user_timeline user since'
              | None => exists since', r = Twitter.home_timeline since'
              end)
           (Twitter.calls apis (Twitter.init user since)).
Proof.
  intros apis user since.
  assert (Hinv : forall self,
             Twitter.user self = user ->
             Twitter.is_user_timeline self =
               match user with None => false | Some _ => true end ->
             Forall (fun r =>
                       match user with
                       | Some _ => exists since', r = Twitter.user_timeline user since'
                       | None => exists since', r = Twitter.home_timeline since'
                       end)
                    (Twitter.calls apis self)).
  { induction apis as [|api rest IH]; intros self Huser Hflag; [constructor |].
    cbn [Twitter.calls]. constructor.
    - unfold Twitter.request_of. rewrite Hflag, Huser.
      destruct user; eexists; reflexivity.
    - destruct (TwitterFacts.after_same_timeline api self) as [Hu Hf].
      apply IH; congruence. }
  apply Hinv; reflexivity.
Qed.

(** X16. Once the inlet has a cursor it keeps one: every later call passes
    [since_id], and the cursor is still set after any number of pulls,
    whatever the client answers. *)
Theorem cursor_is_never_unset :
  forall (apis : list Twitter.API) (self : Twitter.TwitterInlet),
    Twitter.most_recent_id self <> None ->
    Forall (fun r => Twitter.since_id_of r <> None) (Twitter.calls apis self) /\
    Twitter.most_recent_id (Twitter.after_all apis self) <> None.
Proof.
  induction apis as [|api rest IH]; intros self Hset.
  - split; [constructor | exact Hset].
  - destruct (IH (Twitter.after api self) (TwitterFacts.after_cursor_set _ _ Hset))
      as [Hcalls Hafter].
    split; [| exact Hafter].
    cbn [Twitter.calls]. constructor; [| exact Hcalls].
    now rewrite TwitterFacts.since_id_of_request.
Qed.

Lemma cursor_is_never_unset_witness :
  Forall (fun r => Twitter.since_id_of r <> None)
         (Twitter.calls [Feed.down; Feed.client Feed.late]
                        (Twitter.init (Some "cdpierse") (Some 11%Z))) /\
  Twitter.most_recent_id
    (Twitter.after_all [Feed.down; Feed.client Feed.late]
                       (Twitter.init (Some "cdpierse") (Some 11%Z))) <> None.
Proof.
  apply (cursor_is_never_unset [Feed.down; Feed.client Feed.late]
           (Twitter.init (Some "cdpierse") (Some 11%Z))).
  discriminate.
Defined.

(** X17. No status is handled twice: when the client answers newest first
    and honours [since_id], the statuses answered over any number of pulls
    all have different ids. *)
Theorem no_status_is_answered_twice :
  forall (apis : list Twitter.API) (self : Twitter.TwitterInlet),
    Forall Twitter.honours_since_id apis ->
    NoDup (map Twitter.id (Twitter.answers apis self)).
Proof.
  intros apis self Hapis.
  exact (proj1 (TwitterFacts.after_all_up_to_date apis Hapis self []
                  (TwitterFacts.nothing_seen self))).
Qed.

Lemma no_status_is_answered_twice_witness :
  NoDup (map Twitter.id
           (Twitter.answers
              [Feed.client Feed.early; Feed.down; Feed.client Feed.late]
              (Twitter.init (Some "cdpierse") None))).
Proof.
  apply (no_status_is_answered_twice
           [Feed.client Feed.early; Feed.down; Feed.client Feed.late]
           (Twitter.init (Some "cdpierse") None)).
  exact TwitterFacts.feed_honours.
Defined.

(** X18. The cursor is the newest status: with such a client, after any
    number of pulls that were answered with a status at all, the cursor is
    the id of one of the statuses answered and no status answered is newer. *)
Theorem cursor_is_the_newest_status :
  forall (apis : list Twitter.API) (self : Twitter.TwitterInlet),
    Forall Twitter.honours_since_id apis ->
    Twitter.answers apis self <> [] ->
    exists newest : Twitter.Status,
      In newest (Twitter.answers apis self) /\
      Twitter.most_recent_id (Twitter.after_all apis self) = Some (Twitter.id newest) /\
      Forall (fun status => (Twitter.id status <= Twitter.id newest)%Z)
             (Twitter.answers apis self).
Proof.
  intros apis self Hapis Hsome.
  destruct (TwitterFacts.after_all_up_to_date apis Hapis self []
              (TwitterFacts.nothing_seen self))
    as (_ & Hbound & Hcursor).
  cbn [app] in Hbound, Hcursor.
  destruct (Hcursor Hsome) as (newest & Hin & Hset).
  exists newest. split; [exact Hin |]. split; [exact Hset |].
  apply Forall_forall. intros status Hstatus.
  destruct (Hbound status Hstatus) as (cursor & Hcursor' & Hle).
  congruence.
Qed.

Lemma cursor_is_the_newest_status_witness :
  exists newest : Twitter.Status,
    In newest
       (Twitter.answers
          [Feed.client Feed.early; Feed.down; Feed.client Feed.late]
          (Twitter.init (Some "cdpierse") None)) /\
    Twitter.most_recent_id
      (Twitter.after_all
         [Feed.client Feed.early; Feed.down; Feed.client Feed.late]
         (Twitter.init (Some "cdpierse") None)) = Some (Twitter.id newest) /\
    Forall (fun status => (Twitter.id status <= Twitter.id newest)%Z)
           (Twitter.answers
              [Feed.client Feed.early; Feed.down; Feed.client Feed.late]
              (Twitter.init (Some "cdpierse") None)).
Proof.
  apply (cursor_is_the_newest_status
           [Feed.client Feed.early; Feed.down; Feed.client Feed.late]
           (Twitter.init (Some "cdpierse") None)).
  - exact TwitterFacts.feed_honours.
  - vm_compute. discriminate.
Defined.

(** The run of the examples: two statuses, a call that raises, and the one
    status that came since. *)
Example three_pulls :
  map Twitter.id
      (Twitter.answers
         [Feed.client Feed.early; Feed.down; Feed.client Feed.late]
         (Twitter.init (Some "cdpierse") None)) = [12; 11; 15]%Z /\
  Twitter.calls
    [Feed.client Feed.early; Feed.down; Feed.client Feed.late]
    (Twitter.init (Some "cdpierse") None)
  = [ Twitter.user_timeline (Some "cdpierse") None;
      Twitter.user_timeline (Some "cdpierse") (Some 12%Z);
      Twitter.user_timeline (Some "cdpierse") (Some 12%Z) ].
Proof. split; reflexivity. Qed.

(** ** Loading and detection together *)

Module LoaderKinds.
Import Loader.





(** Two loads of one source that place set elements differently give the
    same records and sets with the same elements. *)
Lemma init_catalog_two_placements read_file json_loads place1 place2 path catalog1 catalog2 :
  (forall v s, Permutation (place1 v s) (v :: s)) ->
  (forall v s, Permutation (place2 v s) (v :: s)) ->
  init_catalog read_file json_loads place1 path = inr catalog1 ->
  init_catalog read_file json_loads place2 path = inr catalog2 ->
  stock_data catalog1 = stock_data catalog2 /\
  Permutation (symbols catalog1) (symbols catalog2) /\
  Permutation (proper_stock_names catalog1) (proper_stock_names catalog2).
Proof.
  intros Hplace1 Hplace2.
  unfold init_catalog, _load_data.
  destruct (read_file path) as [text |]; [| discriminate].
  destruct (json_loads text) as [value |]; [| discriminate].
  cbn [bind ret].
  unfold _get_symbols, _get_stock_proper_name.
  destruct (py_iter value) as [e | entries]; [discriminate |].
  cbn [bind].
  pose proof (LoaderOrder.collect_loop_permutation place1 place2 Hplace1 Hplace2
                "Symbol" entries [] [] (Permutation_refl _)) as Hsymbols.
  pose proof (LoaderOrder.collect_loop_permutation place1 place2 Hplace1 Hplace2
                "Name" entries [] [] (Permutation_refl _)) as Hnames.
  destruct (for_each_m entries _ []) as [e1 | symbols1] in Hsymbols |- *;
    [discriminate |].
  destruct (for_each_m entries _ []) as [e2 | symbols2] in Hsymbols |- *;
    [contradiction |].
  cbn [bind].
  destruct (for_each_m entries _ []) as [e1 | names1] in Hnames |- *;
    [discriminate |].
  destruct (for_each_m entries _ []) as [e2 | names2] in Hnames |- *;
    [contradiction |].
  cbn [bind ret]. intros [= <-] [= <-]. cbn. auto.
Qed.

End LoaderKinds.

(** The strings of a set of strings. *)
Lemma all_of_string_of values texts :
  all_of (map string_of values) = Some texts -> values = map Loader.JString texts.
Proof.
  revert texts. induction values as [|v rest IH]; intros texts.
  - intros [= <-]. reflexivity.
  - cbn [map all_of]. destruct v; try discriminate. cbn [string_of].
    destruct (all_of (map string_of rest)) as [found |]; [| discriminate].
    intros [= <-]. cbn. now rewrite (IH found eq_refl).
Qed.

Lemma strings_permutation texts1 texts2 :
  Permutation (map Loader.JString texts1) (map Loader.JString texts2) ->
  Permutation texts1 texts2.
Proof.
  intros Hperm.
  apply (Permutation_map
           (fun v => match string_of v with Some s => s | None => EmptyString end))
    in Hperm.
  rewrite !map_map in Hperm. cbn in Hperm. now rewrite !map_id in Hperm.
Qed.

(** The hits against a set do not depend on its order, but for theirs. *)
Lemma hits_up_to_set_order (first second : SMTPStockEmailOutlet) tweet :
  stock_data first = stock_data second ->
  nlp first = nlp second ->
  Permutation (symbols first) (symbols second) ->
  Permutation (proper_stock_names first) (proper_stock_names second) ->
  Permutation (_analyze_tweet first tweet) (_analyze_tweet second tweet).
Proof.
  intros Hdata Hnlp Hsymbols Hnames.
  rewrite !analyze_tweet_emits, <- Hnlp.
  assert (Hname_hits : forall key text,
             Permutation (name_hits first key text) (name_hits second key text)).
  { intros key text. unfold name_hits, name_mention. rewrite <- Hnlp, <- Hdata.
    now apply Permutation_flat_map. }
  repeat apply Permutation_app; apply flat_map_permutation; intros text.
  - unfold symbol_hits, symbol_mention. rewrite <- Hnlp, <- Hdata.
    now apply Permutation_flat_map.
  - apply Hname_hits.
  - unfold chunk_hits. destruct (1 <? _)%nat; [apply Hname_hits | constructor].
Qed.

(** The outlet over a catalog, taken apart. *)
Lemma outlet_of_inv catalog lang outlet :
  outlet_of catalog lang = Some outlet ->
  exists records,
    Loader.stock_data catalog = Loader.JArray records /\
    all_of (map Loader.stock_of records) = Some (stock_data outlet) /\
    Loader.symbols catalog = map Loader.JString (symbols outlet) /\
    Loader.proper_stock_names catalog = map Loader.JString (proper_stock_names outlet) /\
    nlp outlet = lang.
Proof.
  unfold outlet_of.
  destruct (Loader.stock_data catalog) as [| | | | records |]; try discriminate.
  destruct (all_of (map Loader.stock_of records)) as [stocks |] eqn:Hstocks;
    [| discriminate].
  destruct (all_of (map string_of (Loader.symbols catalog))) as [found_symbols |] eqn:Hs;
    [| discriminate].
  destruct (all_of (map string_of (Loader.proper_stock_names catalog)))
    as [found_names |] eqn:Hn; [| discriminate].
  intros [= <-]. exists records.
  cbn [stock_data symbols proper_stock_names nlp].
  split; [reflexivity |]. split; [exact Hstocks |].
  split; [exact (all_of_string_of _ _ Hs) |].
  split; [exact (all_of_string_of _ _ Hn) | reflexivity].
Qed.

(** C6, as the spec states it, fails: one source with two records, loaded
    twice with sets that place their elements differently, gives for the
    same message and the same oracle the same mentions in another order. *)
Lemma two_loads_order_differently :
  exists catalog1 catalog2 outlet1 outlet2,
    Loader.init_catalog (Sources.one_file "two records") MoreSources.parser
                        Sources.place_last Sources.datapath = inr catalog1 /\
    Loader.init_catalog (Sources.one_file "two records") MoreSources.parser
                        MoreSources.place_first Sources.datapath = inr catalog2 /\
    outlet_of catalog1 Examples.credulous_language = Some outlet1 /\
    outlet_of catalog2 Examples.credulous_language = Some outlet2 /\
    _analyze_tweet outlet1 "up" <> _analyze_tweet outlet2 "up".
Proof.
  do 4 eexists.
  split; [reflexivity |]. split; [reflexivity |].
  split; [reflexivity |]. split; [reflexivity |].
  vm_compute. discriminate.
Qed.

(** C6, amended. Detection is deterministic up to the iteration order of the
    two sets of the catalog.  For two loads of the same source, whatever
    the order in which their sets come to iterate, and two pipelines that
    answer alike on every input, the results for the same message hold the
    same mentions, each as often; and they are the same list, order
    included, when the sets of the two catalogs iterate in the same
    order. *)
Theorem detect_deterministic_up_to_set_order :
  forall (read_file : string -> option string)
         (json_loads : string -> option Loader.json)
         (place1 place2 : Loader.json -> list Loader.json -> list Loader.json)
         (path : string) (lang1 lang2 : Language)
         (catalog1 catalog2 : Loader.Catalog)
         (outlet1 outlet2 : SMTPStockEmailOutlet) (tweet : string),
    (forall v s, Permutation (place1 v s) (v :: s)) ->
    (forall v s, Permutation (place2 v s) (v :: s)) ->
    same_answers lang1 lang2 ->
    Loader.init_catalog read_file json_loads place1 path = inr catalog1 ->
    Loader.init_catalog read_file json_loads place2 path = inr catalog2 ->
    outlet_of catalog1 lang1 = Some outlet1 ->
    outlet_of catalog2 lang2 = Some outlet2 ->
    Permutation (_analyze_tweet outlet1 tweet) (_analyze_tweet outlet2 tweet) /\
    (symbols outlet1 = symbols outlet2 ->
     proper_stock_names outlet1 = proper_stock_names outlet2 ->
     _analyze_tweet outlet1 tweet = _analyze_tweet outlet2 tweet).
Proof.
  intros read_file json_loads place1 place2 path lang1 lang2 catalog1 catalog2
         outlet1 outlet2 tweet Hplace1 Hplace2 Hanswers Hload1 Hload2 Hview1 Hview2.
  destruct (LoaderKinds.init_catalog_two_placements _ _ _ _ _ _ _
              Hplace1 Hplace2 Hload1 Hload2) as (Hdata & Hsymbols & Hnames).
  apply outlet_of_inv in Hview1 as (records1 & Hrecords1 & Hstocks1 & Hs1 & Hn1 & Hlang1).
  apply outlet_of_inv in Hview2 as (records2 & Hrecords2 & Hstocks2 & Hs2 & Hn2 & Hlang2).
  assert (Hsame_data : stock_data outlet1 = stock_data outlet2).
  { assert (records1 = records2) as -> by congruence. congruence. }
  rewrite Hs1, Hs2 in Hsymbols. rewrite Hn1, Hn2 in Hnames.
  apply strings_permutation in Hsymbols, Hnames.
  assert (Hsame_answers : same_answers (nlp outlet1) (nlp outlet2)).
  { now rewrite Hlang1, Hlang2. }
  split.
  - rewrite (analyze_tweet_same_answers outlet1
               {| stock_data := stock_data outlet1;
                  symbols := symbols outlet1;
                  proper_stock_names := proper_stock_names outlet1;
                  nlp := nlp outlet2 |} tweet);
      [| repeat split | exact Hsame_answers].
    now apply hits_up_to_set_order.
  - intros Hs Hn. apply analyze_tweet_same_answers; [| exact Hsame_answers].
    repeat split; assumption.
Qed.

Lemma detect_deterministic_up_to_set_order_witness :
  Permutation
    (_analyze_tweet
       {| stock_data := [Examples.aapl; MoreSources.goog];
          symbols := ["AAPL"; "GOOG"];
          proper_stock_names := ["Apple Inc"; "Google LLC"];
          nlp := Examples.credulous_language |} "up")
    (_analyze_tweet
       {| stock_data := [Examples.aapl; MoreSources.goog];
          symbols := ["GOOG"; "AAPL"];
          proper_stock_names := ["Google LLC"; "Apple Inc"];
          nlp := Examples.credulous_language |} "up") /\
  (["AAPL"; "GOOG"] = ["GOOG"; "AAPL"] ->
   ["Apple Inc"; "Google LLC"] = ["Google LLC"; "Apple Inc"] ->
   _analyze_tweet
     {| stock_data := [Examples.aapl; MoreSources.goog];
        symbols := ["AAPL"; "GOOG"];
        proper_stock_names := ["Apple Inc"; "Google LLC"];
        nlp := Examples.credulous_language |} "up"
   = _analyze_tweet
       {| stock_data := [Examples.aapl; MoreSources.goog];
          symbols := ["GOOG"; "AAPL"];
          proper_stock_names := ["Google LLC"; "Apple Inc"];
          nlp := Examples.credulous_language |} "up").
Proof.
  apply (detect_deterministic_up_to_set_order
           (Sources.one_file "two records") MoreSources.parser
           Sources.place_last MoreSources.place_first Sources.datapath
           Examples.credulous_language Examples.credulous_language
           {| Loader.stock_data := MoreSources.two_records;
              Loader.symbols := [Loader.JString "AAPL"; Loader.JString "GOOG"];
              Loader.proper_stock_names :=
                [Loader.JString "Apple Inc"; Loader.JString "Google LLC"] |}
           {| Loader.stock_data := MoreSources.two_records;
              Loader.symbols := [Loader.JString "GOOG"; Loader.JString "AAPL"];
              Loader.proper_stock_names :=
                [Loader.JString "Google LLC"; Loader.JString "Apple Inc"] |}).
  - intros v s. unfold Sources.place_last.
    apply Permutation_sym, Permutation_cons_append.
  - intros v s. apply Permutation_refl.
  - repeat split.
  - reflexivity.
  - reflexivity.
  - reflexivity.
  - reflexivity.
Defined.

(** ** Malformed sources *)



